(* ===== verification/_CoqProject ===== *)
-Q . S2P
Prelude.v
Easing.v
Timing.v
Gesture.v
Theme.v
Overlay.v
OverlaySpec.v
