(* ===== verification/Prelude.v ===== *)
(** * A verification development of [ImageGalleryOverlay]

    The program is one React Native component,
    [src/package/src/components/ImageGallery/components/ImageGalleryOverlay.tsx]:
    a full-screen, semi-transparent backdrop that the image gallery
    shows above its grid when a bottom sheet is open.  It works with
    four collaborators, and each of them is modelled in its own file:

    - the component itself ([ImageGalleryOverlay], lines 25-95).  It has
      two React states, [visible] and [fadedIn], and one Reanimated
      shared value, [opacity].  A [useEffect] on
      [currentBottomSheetIndex] opens the overlay (it shows it and fades
      [opacity] to 1 with [withTiming]) or closes it (it hides it and
      resets [opacity] and [fadedIn]).  The completion callback of the
      fade posts [setFadedIn(true)] back to the JS thread with [runOnJS].
      An animated style draws the drag value [animatedBottomSheetIndex]
      once [fadedIn] holds, and [opacity] before that.  A tap that
      reaches the [END] state calls [closeGridView].  Modelled in
      [Overlay.v] ([Module Overlay]).
    - Reanimated's [Easing] functions ([Easing.out(Easing.ease)] is the
      fade curve).  Modelled in [Easing.v] from Reanimated's documented
      semantics.  The class [EasingLaws] is the interface that the timing
      engine relies on, and each easing function is an instance of it.
    - Reanimated's shared values and [withTiming], with the [valueSetter]
      that cancels a running animation when the value is assigned.  A
      cancelled animation calls its callback with [finished = false] on
      the next frame.  Modelled in [Timing.v] ([Module Timing]),
      parametric in any [EasingLaws] easing.
    - react-native-gesture-handler's [TapGestureHandler] with
      [maxDeltaX = maxDeltaY = 16] and the handler [State] codes.
      Modelled in [Gesture.v] ([Module Gesture]) as a recognizer state
      machine that emits [onHandlerStateChange] events carrying the
      numeric codes, as [event.nativeEvent.state] does.
    - the theme ([useTheme]) and React Native's style-array flattening.
      Modelled in [Theme.v] ([Module Theme]), together with the
      JavaScript value of the theme context and the property reads of a
      destructuring pattern, which throw a [TypeError] on [undefined]
      and [null] (the [result] type of this file carries it).
    - the bottom sheet, which writes the drag value and passes the
      index.  Its code is not in the repository.  Its contract (drag
      values in [0, 1]) is the hypothesis of the opacity bound
      [Overlay.opacity_in_unit_interval]; drags and index changes are
      otherwise arbitrary events of the system.
    - the abstract contract of the spec (section 4): the phases
      [Hidden], [FadingIn] and [Shown] and their triggers.  The machine
      ([Overlay.spec_step]) and the trigger of each event
      ([Overlay.event_label]) are defined in [Overlay.v] next to the
      system.  [OverlaySpec.v] holds the refinement of this machine by
      the component and the executions showing where the component
      leaves it.

    This file, [Prelude.v], is the root.  It holds the [overlay_scope]
    notations, a small state monad (used to write the effect body in the
    source's statement order), the boolean comparisons on [Q], the
    generic lemmas on [Q] intervals and lists, the [overlay] hint
    database and the development's tactics.

    Numbers.  JavaScript numbers (opacities, drag positions, timestamps,
    durations) are modelled as exact rationals [Q].  Rounding of IEEE
    doubles is not modelled.  Equality of numbers is [Qeq], which is
    coarser than [=], so the easing functions carry [Proper] instances
    and the theorems state their equalities with [==].  Bottom-sheet
    indices are integers [Z].

    State and ordering.  Everything is one global state, [Overlay.Sys].
    It holds the React state, the effect's last dependency, the shared
    values, the queue of [runOnJS] messages still to reach the JS thread,
    the gesture recognizer, and the number of [closeGridView] calls.
    Every event is one step of [Overlay.step]:
    - a re-render with a new index;
    - a drag of the bottom sheet;
    - an animation frame;
    - the delivery of one [runOnJS] message;
    - one touch.
    Interleavings are lists of events ([Overlay.run]).  A re-render is
    React's two phases run back to back: the commit of the element
    rendered from the old state ([Overlay.render_commit]) and the passive
    effect with its re-render ([Overlay.flush_effects]); the lemma
    [commit_two_phases] shows that [Overlay.commit] is their composition,
    and the intermediate commit is stated on its own.  The writes to
    [opacity] and the frames are also available as a list of operations
    ([Overlay.opacity_ops]), to count the fade's callbacks.  Three
    choices are made about the runtime:
    - the [setState] calls of one effect are applied in program order;
    - a shared-value assignment from the JS thread reaches the UI runtime
      before the next frame;
    - a [runOnJS] message is delivered only by an explicit step, so any
      number of other events can come first.

    Fuel.  The only loop is the binary subdivision of [Easing.bezier].
    It is bounded by Reanimated's own [SUBDIVISION_MAX_ITERATIONS = 10].
    Each run of the step function is structural in the event list.

    Not modelled.  React's scheduling beyond the two phases above (when
    the passive effect runs relative to native paint, batching across
    components) is not modelled, and neither are native rendering or
    layout.  The bottom sheet is modelled only through its contract.
    The collaborators are libraries outside the repository, which the
    spec describes only by their contract (section 6).  Their internals
    beyond that contract are left out:
    - the Newton-Raphson refinement inside Reanimated's bezier solver
      (only its subdivision fallback is modelled).  It changes the
      fade's intermediate values, not its endpoints, range or
      completion, which are all the theorems use;
    - the tap recognizer's [maxDurationMs] and [maxDelayMs] timeouts
      and multi-tap counting, which the component leaves at their
      defaults and which the spec does not describe;
    - IEEE rounding of JavaScript numbers, and fractional or [NaN]
      bottom-sheet indices (the spec's index is an integer).
    Lines 1-17 of the source are imports; everything else is modelled.
    The components the manifest marks as partly modelled are these
    collaborators: what is left of them is their implementation, which
    is neither in the repository nor described by the spec, so it
    cannot be modelled faithfully.

    The theorems.  The library files ([Easing], [Timing], [Gesture],
    [Theme]) hold lemmas that the component's theorems use:
    - [Easing]: every easing function satisfies [EasingLaws] (endpoints,
      range, [Proper]), [out] preserves the laws, and the fade curve
      [Easing.out(Easing.ease)] maps [0, 1] onto itself;
    - [Timing]: the bounds of the animated value, completion at the
      duration with [finished = true], cancellation with
      [finished = false] at the next frame, immediate completion when
      the target equals the value, and timeline continuity when the same
      [withTiming] is assigned again;
    - [Gesture]: the recognizer emits [END] exactly once for a touch that
      stays within the tolerance, and never for one that leaves it; the
      native codes round-trip; every touch sequence emits a well-formed
      chain of state changes ([chain_from]);
    - [Theme]: flattening a style array of JavaScript objects lets the
      last entry that has a property win.
    The claims about the program are in [Overlay] and [OverlaySpec]:
    - [Overlay]: visibility equals [index > 0] in every reachable state
      (an invariant [Inv] proved by induction on [reachable]); a re-render with the same index changes
      nothing; a close resets everything at once; an open starts the
      fade, every frame follows the fade curve, and enough time and the
      delivery of the messages finish it (liveness), after which the
      opacity tracks the drag; the opacity stays in [0, 1] if the drag
      value does; a tap closes exactly once, a drag never closes, and a
      hidden overlay ignores touches, and [tapEvent] sees a well-formed
      stream of state changes (a type invariant of the handler); every
      message in flight sets [fadedIn] to [true], and every fade
      assigned posts exactly one, cancelled or not (a counting
      invariant); the [useTheme()] destructuring throws exactly on a
      missing intermediate object (the error path), while a missing
      [colors.overlay] is no error but leaves the flattened style
      without a background colour; and the first commit for a new index
      still shows the old visibility.
    - [OverlaySpec]: the component refines the machine in lockstep on
      runs where the overlay is closed only while nothing is in flight:
      each event moves the phase by exactly the machine's step for its
      trigger (open, completion, close, or no trigger, which keeps the
      phase), so a component that skipped a phase or moved without its
      trigger would not satisfy it.  Without that
      hypothesis it does not.  A close during the fade leaves [fadedIn]
      set on a hidden overlay, because the callback ignores [finished];
      a completion already queued for the JS thread when the close runs
      does the same, even from a fade that finished; the next open then
      skips [FadingIn]; an index change between two positive values
      ends the fade early; and a fast close and reopen makes the
      displayed opacity jump mid-fade, which answers the open question
      of section 9 of the spec.  Opening and closing with the fade
      delivered in between is a round trip, and everything in flight
      drains within one frame 200 time units on (termination).
    Each theorem with hypotheses has a witness ([..._witness]) that
    applies it to a concrete mount of the component ([witness_open] at
    index 1, [witness_closed] at index 0, clock 1000, drag 1/2). *)

From Stdlib Require Export QArith Lqa List Bool ZArith Lia Morphisms Setoid String.
Export ListNotations.

Declare Scope overlay_scope.
Delimit Scope overlay_scope with ov.
Open Scope Q_scope.

(** ** Boolean comparisons on [Q], as JavaScript's [<], [>=], [===] *)

Definition Qltb (a b : Q) : bool := negb (Qle_bool b a).

Notation "a <=? b" := (Qle_bool a b) (at level 70, no associativity) : overlay_scope.
Notation "a <? b" := (Qltb a b) (at level 70, no associativity) : overlay_scope.
Notation "a =? b" := (Qeq_bool a b) (at level 70, no associativity) : overlay_scope.

(** The closed unit interval, where opacities and easing progress live. *)
Definition in01 (q : Q) : Prop := 0 <= q <= 1.

(** ** A state monad, for handlers that thread state through calls *)

Definition St (S A : Type) : Type := S -> A * S.

Definition st_ret {S A} (a : A) : St S A := fun s => (a, s).
Definition st_bind {S A B} (m : St S A) (k : A -> St S B) : St S B :=
  fun s => let '(a, s') := m s in k a s'.
Definition st_get {S} : St S S := fun s => (s, s).
Definition st_modify {S} (f : S -> S) : St S unit := fun s => (tt, f s).
Definition st_exec {S A} (m : St S A) (s : S) : S := snd (m s).

Notation "x <- m ;; k" := (st_bind m (fun x => k))
  (at level 61, m at next level, right associativity) : overlay_scope.
Notation "m ;; k" := (st_bind m (fun _ => k))
  (at level 61, right associativity) : overlay_scope.

(** ** Generic lemmas *)

Create HintDb overlay.

Section QLemmas.

Lemma Qltb_iff (a b : Q) : Qltb a b = true <-> a < b.
Proof.
  unfold Qltb. rewrite negb_true_iff. split; intro H.
  - destruct (Qlt_le_dec a b) as [|Hle]; [assumption|].
    apply Qle_bool_iff in Hle. congruence.
  - destruct (Qle_bool b a) eqn:E; [|reflexivity].
    apply Qle_bool_iff in E. exfalso. apply (Qlt_not_le a b); assumption.
Qed.

Lemma Qle_bool_false (a b : Q) : Qle_bool a b = false -> b < a.
Proof.
  intro H. destruct (Qlt_le_dec b a) as [|Hle]; [assumption|].
  apply Qle_bool_iff in Hle. congruence.
Qed.

Lemma Qltb_false (a b : Q) : Qltb a b = false -> b <= a.
Proof. unfold Qltb. rewrite negb_false_iff. apply Qle_bool_iff. Qed.

Lemma Qltb_false_iff (a b : Q) : Qltb a b = false <-> b <= a.
Proof.
  split; [apply Qltb_false|]. intro H. unfold Qltb. rewrite negb_false_iff.
  apply Qle_bool_iff, H.
Qed.

Lemma Qeq_bool_false (a b : Q) : Qeq_bool a b = false -> ~ a == b.
Proof. intros H E. apply Qeq_bool_iff in E. congruence. Qed.

Lemma Qle_bool_false_iff (a b : Q) : Qle_bool a b = false <-> b < a.
Proof.
  split; [apply Qle_bool_false|]. intro H. apply not_true_iff_false. rewrite Qle_bool_iff.
  intro H'. apply (Qlt_not_le b a); assumption.
Qed.

Lemma Qeq_bool_false_iff (a b : Q) : Qeq_bool a b = false <-> ~ a == b.
Proof.
  split; [apply Qeq_bool_false|]. intro H. apply not_true_iff_false. rewrite Qeq_bool_iff.
  exact H.
Qed.

#[export] Instance Qeq_bool_proper : Proper (Qeq ==> Qeq ==> eq) Qeq_bool.
Proof.
  intros a a' Ha b b' Hb. apply eq_true_iff_eq. rewrite !Qeq_bool_iff, Ha, Hb.
  reflexivity.
Qed.

#[export] Instance Qltb_proper : Proper (Qeq ==> Qeq ==> eq) Qltb.
Proof. intros a a' Ha b b' Hb. unfold Qltb. rewrite Ha, Hb. reflexivity. Qed.

(** A step [x + (y - x) * t] of a linear interpolation with [t] in the
    unit interval stays between any bounds of its two ends. *)
Lemma interp_between (lo hi x y t : Q) :
  lo <= x <= hi -> lo <= y <= hi -> in01 t -> lo <= x + (y - x) * t <= hi.
Proof.
  unfold in01. intros [] [] [].
  assert (0 <= (x - lo) * (1 - t)) by (apply Qmult_le_0_compat; lra).
  assert (0 <= (y - lo) * t) by (apply Qmult_le_0_compat; lra).
  assert (0 <= (hi - x) * (1 - t)) by (apply Qmult_le_0_compat; lra).
  assert (0 <= (hi - y) * t) by (apply Qmult_le_0_compat; lra).
  split; nra.
Qed.

Lemma in01_interp (x y t : Q) :
  in01 x -> in01 y -> in01 t -> in01 (x + (y - x) * t).
Proof. unfold in01. intros. apply interp_between; assumption. Qed.

Lemma in01_0 : in01 0.
Proof. unfold in01. lra. Qed.

Lemma in01_1 : in01 1.
Proof. unfold in01. lra. Qed.

Lemma in01_compl (q : Q) : in01 q -> in01 (1 - q).
Proof. unfold in01. lra. Qed.

Lemma in01_half (q : Q) : in01 q -> in01 (q / 2).
Proof.
  unfold in01. intros []. change (q / 2) with (q * (1 # 2)). lra.
Qed.

Lemma in01_div (a d : Q) : 0 <= a -> a < d -> in01 (a / d).
Proof.
  unfold in01. intros Ha Hd. assert (Hd0 : 0 < d) by lra. split.
  - apply Qle_shift_div_l; [assumption|]. lra.
  - apply Qle_shift_div_r; [assumption|]. lra.
Qed.

End QLemmas.

#[export] Hint Resolve in01_0 in01_1 in01_compl in01_half in01_interp : overlay.

(** ** Tactics *)

(** [qbool] turns the boolean comparisons on [Q] in the context into the
    propositions they decide. *)
Ltac qbool :=
  repeat match goal with
  | H : Qle_bool _ _ = true |- _ => apply Qle_bool_iff in H
  | H : Qle_bool _ _ = false |- _ => apply Qle_bool_false in H
  | H : Qltb _ _ = true |- _ => apply Qltb_iff in H
  | H : Qltb _ _ = false |- _ => apply Qltb_false in H
  | H : Qeq_bool _ _ = true |- _ => apply Qeq_bool_iff in H
  | H : Qeq_bool _ _ = false |- _ => apply Qeq_bool_false in H
  end.

(** [case_q] splits on the first boolean comparison that a goal's
    definitions test, and records the outcome as a proposition. *)
Ltac case_q :=
  match goal with
  | |- context [Qle_bool ?a ?b] => let E := fresh "E" in destruct (Qle_bool a b) eqn:E
  | |- context [Qltb ?a ?b] => let E := fresh "E" in destruct (Qltb a b) eqn:E
  | |- context [Qeq_bool ?a ?b] => let E := fresh "E" in destruct (Qeq_bool a b) eqn:E
  end; qbool.

(** A list built with [++] around at least one [::] is not empty. *)
Ltac list_not_nil :=
  let Hn := fresh "Hn" in
  intro Hn; apply (f_equal (@List.length _)) in Hn; rewrite ?length_app in Hn; cbn in Hn; lia.

(** ** Results of code that may throw *)

Inductive result (A E : Type) : Type :=
| Success (a : A)
| Failure (e : E).
Arguments Success {A E} a.
Arguments Failure {A E} e.

Definition res_bind {A B E} (m : result A E) (k : A -> result B E) : result B E :=
  match m with Success a => k a | Failure e => Failure e end.

Notation "'let?' x ':=' m 'in' k" := (res_bind m (fun x => k))
  (at level 10, x name, m at level 100, k at level 200) : overlay_scope.
