(* ===== verification/Easing.v ===== *)
(** * Reanimated's easing functions

    The fade of [ImageGalleryOverlay] runs on [Easing.out(Easing.ease)]
    (source line 49).  This file models the easing functions of
    react-native-reanimated ([Easing.ts] and [Bezier.ts]).  They are
    library code, outside this repository, so they are modelled from
    the library's documented behaviour.

    The class [EasingLaws] is the interface that the timing engine
    ([Timing.v]) relies on.  An easing respects [Qeq], maps 0 to 0 and
    1 to 1, and maps the unit interval into itself.  [linear], [quad],
    [cubic] and [ease] are instances.  The combinators [in_], [out] and
    [inOut] preserve the laws. *)

From S2P Require Import Prelude.
From Stdlib Require Import Qabs.

Module Easing.

Open Scope overlay_scope.
Open Scope Q_scope.

(** ** The interface *)

Class EasingLaws (f : Q -> Q) : Prop := {
  easing_proper :: Proper (Qeq ==> Qeq) f;
  easing_0 : f 0 == 0;
  easing_1 : f 1 == 1;
  easing_range : forall t, in01 t -> in01 (f t)
}.

(** ** The easing functions *)

Definition linear (t : Q) : Q := t.
Definition quad (t : Q) : Q := t * t.
Definition cubic (t : Q) : Q := t * t * t.

Definition in_ (easing : Q -> Q) : Q -> Q := easing.
Definition out (easing : Q -> Q) : Q -> Q := fun t => 1 - easing (1 - t).
Definition inOut (easing : Q -> Q) : Q -> Q := fun t =>
  if t <? (1 # 2) then easing (t * 2) / 2
  else 1 - easing ((1 - t) * 2) / 2.

(** *** Cubic Bezier curves, as in Reanimated's [Bezier.ts]

    [calcBezier t a1 a2] is one coordinate of the curve through (0,0)
    and (1,1) with control coordinates [a1] and [a2], in Horner form.
    [getTForX] finds the curve parameter of an abscissa.  It first
    walks the table of 11 samples to the interval that holds the
    abscissa, and then subdivides that interval for at most
    [SUBDIVISION_MAX_ITERATIONS] rounds. *)

Definition kSplineTableSize : nat := 11.
Definition kSampleStepSize : Q := 1 # 10.
Definition SUBDIVISION_PRECISION : Q := 1 # 10000000.
Definition SUBDIVISION_MAX_ITERATIONS : nat := 10.

Definition coefA (aA1 aA2 : Q) : Q := 1 - 3 * aA2 + 3 * aA1.
Definition coefB (aA1 aA2 : Q) : Q := 3 * aA2 - 6 * aA1.
Definition coefC (aA1 : Q) : Q := 3 * aA1.

Definition calcBezier (aT aA1 aA2 : Q) : Q :=
  ((coefA aA1 aA2 * aT + coefB aA1 aA2) * aT + coefC aA1) * aT.

(** The do-while loop of [binarySubdivide]: [fuel] is the number of
    rounds left after this one. *)
Fixpoint binarySubdivide (fuel : nat) (aX aA aB mX1 mX2 : Q) : Q :=
  let currentT := Qred (aA + (aB - aA) / 2) in
  let currentX := calcBezier currentT mX1 mX2 - aX in
  match fuel with
  | O => currentT
  | S n =>
      if SUBDIVISION_PRECISION <? Qabs currentX then
        if 0 <? currentX then binarySubdivide n aX aA currentT mX1 mX2
        else binarySubdivide n aX currentT aB mX1 mX2
      else currentT
  end.

Definition sampleAt (i : nat) (mX1 mX2 : Q) : Q :=
  calcBezier (inject_Z (Z.of_nat i) * kSampleStepSize) mX1 mX2.

(** The sample walk of [getTForX]: from [currentSample = i], advance
    while [currentSample] is not the last sample and the sample is at
    most [aX]; the result is the index of the interval's start. *)
Fixpoint sampleInterval (fuel : nat) (i : nat) (aX mX1 mX2 : Q) : nat :=
  match fuel with
  | O => Nat.pred i
  | S f =>
      if Nat.eqb i (kSplineTableSize - 1) then Nat.pred i
      else if sampleAt i mX1 mX2 <=? aX then sampleInterval f (S i) aX mX1 mX2
      else Nat.pred i
  end.

Definition getTForX (mX1 mX2 aX : Q) : Q :=
  let intervalStart :=
    inject_Z (Z.of_nat (sampleInterval kSplineTableSize 1 aX mX1 mX2)) * kSampleStepSize in
  binarySubdivide (SUBDIVISION_MAX_ITERATIONS - 1) aX intervalStart
    (intervalStart + kSampleStepSize) mX1 mX2.

Definition bezier (mX1 mY1 mX2 mY2 : Q) (x : Q) : Q :=
  if (mX1 =? mY1) && (mX2 =? mY2) then x
  else if x =? 0 then 0
  else if x =? 1 then 1
  else calcBezier (getTForX mX1 mX2 x) mY1 mY2.

Definition ease : Q -> Q := bezier (42 # 100) 0 1 1.

(** The overlay's fade curve, [Easing.out(Easing.ease)]. *)
Definition fade_easing : Q -> Q := out ease.

(** ** Lemmas *)

Lemma midpoint_between (aA aB : Q) :
  aA <= aB -> aA <= Qred (aA + (aB - aA) / 2) <= aB.
Proof.
  intro H. rewrite Qred_correct.
  change ((aB - aA) / 2) with ((aB - aA) * (1 # 2)). lra.
Qed.

Lemma binarySubdivide_between (n : nat) (aX aA aB mX1 mX2 : Q) :
  aA <= aB -> aA <= binarySubdivide n aX aA aB mX1 mX2 <= aB.
Proof.
  revert aA aB. induction n as [|n IH]; intros aA aB Hab;
    pose proof (midpoint_between aA aB Hab) as Hm; cbn [binarySubdivide].
  - exact Hm.
  - destruct (_ <? _); [|exact Hm].
    destruct (_ <? _).
    + pose proof (IH aA _ (proj1 Hm)). lra.
    + pose proof (IH _ aB (proj2 Hm)). lra.
Qed.

Lemma binarySubdivide_compat (n : nat) (aX aX' aA aB mX1 mX2 : Q) :
  aX == aX' -> binarySubdivide n aX aA aB mX1 mX2 = binarySubdivide n aX' aA aB mX1 mX2.
Proof.
  intro Hx. revert aA aB. induction n as [|n IH]; intros aA aB; [reflexivity|].
  cbn [binarySubdivide]. set (c := calcBezier _ mX1 mX2).
  assert (E1 : Qltb SUBDIVISION_PRECISION (Qabs (c - aX))
             = Qltb SUBDIVISION_PRECISION (Qabs (c - aX'))) by (rewrite Hx; reflexivity).
  assert (E2 : Qltb 0 (c - aX) = Qltb 0 (c - aX')) by (rewrite Hx; reflexivity).
  rewrite E1, E2. destruct (SUBDIVISION_PRECISION <? Qabs (c - aX')); [|reflexivity].
  destruct (0 <? c - aX'); apply IH.
Qed.

Lemma sampleInterval_compat (fuel i : nat) (aX aX' mX1 mX2 : Q) :
  aX == aX' -> sampleInterval fuel i aX mX1 mX2 = sampleInterval fuel i aX' mX1 mX2.
Proof.
  intro Hx. revert i. induction fuel as [|f IH]; intro i; [reflexivity|].
  cbn [sampleInterval]. rewrite Hx.
  destruct (Nat.eqb _ _), (Qle_bool (sampleAt i mX1 mX2) aX'); auto.
Qed.

Lemma sampleInterval_bound (fuel i : nat) (aX mX1 mX2 : Q) :
  (i <= 10)%nat -> (sampleInterval fuel i aX mX1 mX2 <= 9)%nat.
Proof.
  revert i. induction fuel as [|f IH]; intros i Hi; simpl; [lia|].
  destruct (Nat.eqb_spec i 10) as [|Hne]; [lia|].
  destruct (Qle_bool _ _); [apply IH|]; lia.
Qed.

Lemma getTForX_range (mX1 mX2 aX : Q) : in01 (getTForX mX1 mX2 aX).
Proof.
  unfold getTForX, in01.
  pose proof (sampleInterval_bound kSplineTableSize 1 aX mX1 mX2 ltac:(lia)) as Hk.
  set (k := sampleInterval _ _ _ _ _) in *.
  assert (Hk' : 0 <= inject_Z (Z.of_nat k) <= 9).
  { split; [change 0 with (inject_Z 0) | change 9 with (inject_Z 9)];
    rewrite <- Zle_Qle; lia. }
  set (st := inject_Z (Z.of_nat k) * kSampleStepSize).
  assert (0 <= st /\ st + kSampleStepSize <= 1) by (unfold st, kSampleStepSize in *; lra).
  pose proof (binarySubdivide_between (SUBDIVISION_MAX_ITERATIONS - 1) aX st
    (st + kSampleStepSize) mX1 mX2 ltac:(unfold kSampleStepSize in *; lra)).
  lra.
Qed.

(** The ordinate of [ease]'s curve is [3 s^2 - 2 s^3], which maps the
    unit interval into itself. *)
Lemma calcBezier_ease_range (s : Q) : in01 s -> in01 (calcBezier s 0 1).
Proof.
  unfold in01, calcBezier, coefA, coefB, coefC. intros [H0 H1].
  assert (0 <= s * s) by nra. assert (0 <= (1 - s) * (1 - s)) by nra.
  split; nra.
Qed.

Lemma getTForX_compat (mX1 mX2 aX aX' : Q) :
  aX == aX' -> getTForX mX1 mX2 aX = getTForX mX1 mX2 aX'.
Proof.
  intro Hx. unfold getTForX.
  rewrite (sampleInterval_compat _ _ aX aX' _ _ Hx).
  apply binarySubdivide_compat; assumption.
Qed.

Lemma ease_eq (x : Q) :
  ease x = if x =? 0 then 0 else if x =? 1 then 1
           else calcBezier (getTForX (42 # 100) 1 x) 0 1.
Proof. reflexivity. Qed.

(** ** The instances of the interface *)

(** [in_ f] unfolds to [f]: instance search must not see through it, or
    it would loop on [in_laws]. *)
#[export] Typeclasses Opaque linear quad cubic in_ out inOut ease.

#[export] Instance linear_laws : EasingLaws linear.
Proof.
  constructor; unfold linear; [intros x y H; exact H | reflexivity | reflexivity | auto].
Qed.

#[export] Instance quad_laws : EasingLaws quad.
Proof.
  constructor; unfold quad, in01; [intros x y H; rewrite H; reflexivity
    | reflexivity | reflexivity | intros t []; split; nra].
Qed.

#[export] Instance cubic_laws : EasingLaws cubic.
Proof.
  constructor; unfold cubic, in01; [intros x y H; rewrite H; reflexivity
    | reflexivity | reflexivity |].
  intros t []. assert (0 <= t * t <= 1) by (split; nra). split; nra.
Qed.

#[export] Instance in_laws f `{EasingLaws f} : EasingLaws (in_ f).
Proof. unfold in_. assumption. Qed.

#[export] Instance out_laws f `{EasingLaws f} : EasingLaws (out f).
Proof.
  constructor; unfold out.
  - intros x y E. rewrite E. reflexivity.
  - setoid_replace (1 - 0) with 1 by reflexivity. rewrite (easing_1 (f := f)). reflexivity.
  - setoid_replace (1 - 1) with 0 by reflexivity. rewrite (easing_0 (f := f)). reflexivity.
  - intros t Ht. apply in01_compl, easing_range, in01_compl, Ht.
Qed.

#[export] Instance inOut_laws f `{EasingLaws f} : EasingLaws (inOut f).
Proof.
  constructor; unfold inOut.
  - intros x y E. assert (Hb : (x <? 1 # 2)%ov = (y <? 1 # 2)%ov) by (rewrite E; reflexivity).
    rewrite Hb. destruct (y <? 1 # 2)%ov; rewrite E; reflexivity.
  - cbn. setoid_replace (0 * 2) with 0 by reflexivity. rewrite (easing_0 (f := f)). reflexivity.
  - cbn. setoid_replace ((1 - 1) * 2) with 0 by reflexivity. rewrite (easing_0 (f := f)).
    reflexivity.
  - intros t Ht. unfold in01 in Ht. case_q.
    + apply in01_half, easing_range. unfold in01. lra.
    + apply in01_compl, in01_half, easing_range. unfold in01. lra.
Qed.

#[export] Instance ease_laws : EasingLaws ease.
Proof.
  constructor.
  - intros x y E. rewrite !ease_eq, (getTForX_compat _ _ x y E).
    replace (x =? 0)%ov with (y =? 0)%ov by (rewrite E; reflexivity).
    replace (x =? 1)%ov with (y =? 1)%ov by (rewrite E; reflexivity).
    reflexivity.
  - reflexivity.
  - reflexivity.
  - intros t Ht. rewrite ease_eq. repeat case_q; auto with overlay.
    apply calcBezier_ease_range, getTForX_range.
Qed.

(** C25: The overlay's fade curve [Easing.out(Easing.ease)] starts at 0,
    ends at 1, and maps every point of the unit interval into the unit
    interval.  So a fade between two opacities of the unit interval never
    leaves the interval between them. *)
Theorem fade_easing_bounds :
  fade_easing 0 == 0 /\ fade_easing 1 == 1 /\ (forall t, in01 t -> in01 (fade_easing t)).
Proof.
  unfold fade_easing. split; [apply easing_0 | split; [apply easing_1 | apply easing_range]].
Qed.

Lemma fade_easing_bounds_witness :
  in01 (1 # 2) /\ in01 (fade_easing (1 # 2)).
Proof.
  assert (H : in01 (1 # 2)) by (unfold in01; lra).
  split; [exact H | apply (proj2 (proj2 fade_easing_bounds)), H].
Defined.

End Easing.
