(* ===== verification/Timing.v ===== *)
(** * Reanimated shared values and [withTiming]

    [ImageGalleryOverlay] owns one shared value, [opacity]
    ([useSharedValue(0)], source line 40).  It assigns that value in two
    ways:
    - an animation, [opacity.value = withTiming(1, config, callback)]
      (lines 45-52);
    - a plain number, [opacity.value = 0] (line 55).

    This file models the parts of react-native-reanimated that give those
    assignments their meaning.  They are library code, outside this
    repository, so they are modelled from Reanimated's documented
    behaviour:
    - [withTiming] builds the animation object.  [onStart] chooses its
      start value and start time.  When a timing animation to the same
      target is still running, it keeps that animation's timeline.
      [onFrame] computes [start + (to - start) * easing(runtime /
      duration)] and finishes once [runtime >= duration].
    - [set_value] and [set_animation] are the [valueSetter].  Either one
      cancels the running animation.  The cancelled animation calls its
      callback with [finished = false] at the next frame.
      [set_animation] calls the callback with [finished = true] at once
      when the value already equals the target.  Otherwise it starts the
      animation and runs its first step at the current timestamp.
    - [frame] is one UI frame.  The pending cancellations call back
      first, and then the running animation takes a step.  When the
      step finishes the animation, the callback runs with
      [finished = true].

    A callback is modelled by the messages it posts (the [runOnJS] calls
    it makes).  The theorems hold for every easing that satisfies
    [Easing.EasingLaws]. *)

From S2P Require Import Prelude Easing.
From Stdlib Require Import Sorted.

Module Timing.

Import Easing.
Open Scope overlay_scope.
Open Scope Q_scope.

Section WithMessages.

(** The messages that callbacks post to the JS thread. *)
Context {M : Type}.

(** A callback receives [finished] and returns the messages it posts. *)
Definition Callback : Type := bool -> list M.

Record TimingConfig := mkConfig { duration : Q; easing : Q -> Q }.

(** The object built by [withTiming(toValue, config, callback)]. *)
Record AnimationDef := mkDef {
  def_toValue : Q;
  def_config : TimingConfig;
  def_callback : option Callback
}.

Definition withTiming (toValue : Q) (config : TimingConfig) (callback : option Callback)
  : AnimationDef := mkDef toValue config callback.

(** A started animation: its start value, start time, and the timestamp
    of its last step. *)
Record Animation := mkAnim {
  an_def : AnimationDef;
  an_startValue : Q;
  an_startTime : Q;
  an_timestamp : Q
}.

(** A shared value.  It holds its value, its running animation, and the
    callbacks of cancelled animations that still wait for their next
    frame. *)
Record SharedValue := mkSV {
  sv_value : Q;
  sv_animation : option Animation;
  sv_cancelled : list Callback
}.

Definition useSharedValue (init : Q) : SharedValue := mkSV init None [].

(** [animation.callback && animation.callback(finished)] *)
Definition fire (callback : option Callback) (finished : bool) : list M :=
  match callback with Some cb => cb finished | None => [] end.

Definition an_toValue (a : Animation) : Q := def_toValue (an_def a).
Definition an_config (a : Animation) : TimingConfig := def_config (an_def a).

Definition onStart (d : AnimationDef) (value now : Q) (previous : option Animation)
  : Animation :=
  match previous with
  | Some p =>
      if (an_toValue p =? def_toValue d) && negb (an_startTime p =? 0)
      then mkAnim d (an_startValue p) (an_startTime p) now
      else mkAnim d value now now
  | None => mkAnim d value now now
  end.

Definition onFrame (a : Animation) (now : Q) : Q * bool :=
  let config := an_config a in
  let runtime := now - an_startTime a in
  if duration config <=? runtime then (an_toValue a, true)
  else (an_startValue a
        + (an_toValue a - an_startValue a) * easing config (runtime / duration config),
        false).

(** One call of the [step] closure of a running animation: the value it
    writes, the animation if it keeps running, and the messages posted. *)
Definition step_anim (a : Animation) (newTimestamp : Q) : Q * option Animation * list M :=
  let timestamp := if newTimestamp <? an_timestamp a then an_timestamp a else newTimestamp in
  let '(current, finished) := onFrame a timestamp in
  if finished then (current, None, fire (def_callback (an_def a)) true)
  else (current, Some (mkAnim (an_def a) (an_startValue a) (an_startTime a) timestamp), []).

Definition cancelled_of (previous : option Animation) : list Callback :=
  match previous with
  | Some a => match def_callback (an_def a) with Some cb => [cb] | None => [] end
  | None => []
  end.

(** [sv.value = v] for a number [v]. *)
Definition set_value (v : Q) (sv : SharedValue) : SharedValue :=
  mkSV v None (sv_cancelled sv ++ cancelled_of (sv_animation sv)).

(** [sv.value = d] for an animation [d], at timestamp [now]. *)
Definition set_animation (d : AnimationDef) (now : Q) (sv : SharedValue)
  : SharedValue * list M :=
  let cancelled := sv_cancelled sv ++ cancelled_of (sv_animation sv) in
  if sv_value sv =? def_toValue d then
    (mkSV (sv_value sv) None cancelled, fire (def_callback d) true)
  else
    let a := onStart d (sv_value sv) now (sv_animation sv) in
    let '(v, next, msgs) := step_anim a now in
    (mkSV v next cancelled, msgs).

(** One UI frame at timestamp [now]. *)
Definition frame (now : Q) (sv : SharedValue) : SharedValue * list M :=
  let cancelled_msgs := flat_map (fun cb => cb false) (sv_cancelled sv) in
  match sv_animation sv with
  | None => (mkSV (sv_value sv) None [], cancelled_msgs)
  | Some a =>
      let '(v, next, msgs) := step_anim a now in
      (mkSV v next [], cancelled_msgs ++ msgs)
  end.

(** ** Well-formedness

    An animation is well formed at clock [now] when several things hold.
    Its start and target values lie in the unit interval.  Its duration
    is positive and its easing satisfies the laws.  Its start time is at
    most its last timestamp, and that timestamp is at most [now]. *)
Definition anim_ok (now : Q) (a : Animation) : Prop :=
  in01 (an_startValue a) /\ in01 (an_toValue a) /\ 0 < duration (an_config a) /\
  EasingLaws (easing (an_config a)) /\ an_startTime a <= an_timestamp a <= now.

Definition sv_ok (now : Q) (sv : SharedValue) : Prop :=
  in01 (sv_value sv) /\ forall a, sv_animation sv = Some a -> anim_ok now a.

(** An animation definition that may be started: target in the unit
    interval, positive duration, lawful easing. *)
Definition def_ok (d : AnimationDef) : Prop :=
  in01 (def_toValue d) /\ 0 < duration (def_config d) /\ EasingLaws (easing (def_config d)).

(** The callbacks a shared value still owes a call: those of cancelled
    animations, which run at the next frame, and that of the running
    animation. *)
Definition owed (sv : SharedValue) : list Callback :=
  sv_cancelled sv ++ cancelled_of (sv_animation sv).

End WithMessages.

Arguments SharedValue M : clear implicits.
Arguments Animation M : clear implicits.
Arguments AnimationDef M : clear implicits.

(** ** Lemmas and theorems *)

Section Theorems.

Context {M : Type}.
Implicit Types (sv : SharedValue M) (a : Animation M) (d : AnimationDef M).

Lemma onFrame_range a now :
  anim_ok now a -> in01 (fst (onFrame a now)).
Proof.
  intros (Hs & Ht & Hd & He & Hc). unfold onFrame. case_q; simpl; [assumption|].
  apply in01_interp; [assumption | assumption |].
  apply easing_range, in01_div; lra.
Qed.

Lemma anim_ok_mono a c c' : anim_ok c a -> c <= c' -> anim_ok c' a.
Proof.
  intros (? & ? & ? & ? & ?) Hc. refine (conj _ (conj _ (conj _ (conj _ _)))); auto; lra.
Qed.

Lemma step_anim_ok a c t :
  anim_ok c a -> c <= t ->
  in01 (fst (fst (step_anim a t))) /\
  (forall a', snd (fst (step_anim a t)) = Some a' -> anim_ok t a').
Proof.
  intros Hok Hct. pose proof Hok as (Hs & Ht & Hd & He & Hc).
  unfold step_anim. case_q; [lra|].
  pose proof (onFrame_range a t (anim_ok_mono a c t Hok Hct)) as Hr.
  destruct (onFrame a t) as [v []]; simpl in *; split; try easy.
  intros a' [= <-]. refine (conj _ (conj _ (conj _ (conj _ _)))); simpl; auto; lra.
Qed.

Lemma sv_ok_mono sv c c' : sv_ok c sv -> c <= c' -> sv_ok c' sv.
Proof.
  intros [Hv Ha] Hc. split; [assumption|]. intros a E. eapply anim_ok_mono; eauto.
Qed.

Lemma set_value_ok sv v c : in01 v -> sv_ok c (set_value v sv).
Proof. intro Hv. split; [assumption | discriminate]. Qed.

Lemma onStart_ok sv d c :
  sv_ok c sv -> def_ok d -> anim_ok c (onStart d (sv_value sv) c (sv_animation sv)).
Proof.
  intros [Hv Ha] (Ht & Hd & He).
  assert (Hfresh : anim_ok c (mkAnim d (sv_value sv) c c))
    by (refine (conj _ (conj _ (conj _ (conj _ _)))); simpl; auto; lra).
  unfold onStart. destruct (sv_animation sv) as [p|] eqn:Ep; [|exact Hfresh].
  destruct (_ && _); [|exact Hfresh].
  destruct (Ha p eq_refl) as (Hps & _ & _ & _ & Hpc).
  refine (conj _ (conj _ (conj _ (conj _ _)))); simpl; auto; lra.
Qed.

Lemma set_animation_ok sv d c :
  sv_ok c sv -> def_ok d -> sv_ok c (fst (set_animation d c sv)).
Proof.
  intros Hsv Hd. pose proof Hsv as [Hv _]. unfold set_animation. case_q.
  - split; [assumption | discriminate].
  - pose proof (step_anim_ok _ c c (onStart_ok sv d c Hsv Hd) (Qle_refl c)) as [Hr Hn].
    destruct (step_anim _ c) as [[v next] msgs]. split; assumption.
Qed.

(** A step of a running animation either finishes it, posting what its
    callback posts for [true], or keeps it running with the same
    definition, posting nothing. *)
Lemma step_anim_shape a t :
  (snd (fst (step_anim a t)) = None /\ snd (step_anim a t) = fire (def_callback (an_def a)) true)
  \/ (exists a', snd (fst (step_anim a t)) = Some a' /\ an_def a' = an_def a /\
                 snd (step_anim a t) = []).
Proof.
  unfold step_anim. destruct (onFrame a _) as [v []]; [left; split; reflexivity|].
  right. eexists. split; [reflexivity | split; reflexivity].
Qed.

Lemma onStart_def d v now previous : an_def (onStart d v now previous) = d.
Proof.
  unfold onStart. destruct previous as [p|]; [destruct (_ && _)|]; reflexivity.
Qed.

(** The outcome of [set_animation]: the cancelled callbacks grow by the
    running animation's, and either the animation is already over (its
    callback ran for [true]) or it runs with the given definition. *)
Lemma set_animation_shape d now sv :
  exists v next msgs,
    set_animation d now sv = (@mkSV M v next (sv_cancelled sv ++ cancelled_of (sv_animation sv)), msgs) /\
    ((next = None /\ msgs = fire (def_callback d) true) \/
     (exists a', next = Some a' /\ an_def a' = d /\ msgs = [])).
Proof.
  unfold set_animation. case_q.
  - do 3 eexists. split; [reflexivity | left; split; reflexivity].
  - pose proof (onStart_def d (sv_value sv) now (sv_animation sv)) as Ha.
    set (a := onStart d _ _ _) in *.
    destruct (step_anim_shape a now) as [[E1 E2] | (a' & E1 & E2 & E3)];
      destruct (step_anim a now) as [[v next] msgs]; simpl in E1, E2 |- *;
      exists v, next, msgs; (split; [reflexivity|]).
    + left. split; [exact E1 | rewrite E2, Ha; reflexivity].
    + right. exists a'. split; [exact E1 | split; [congruence | exact E3]].
Qed.

(** The outcome of a frame: the cancelled callbacks run for [false], and
    the running animation, if any, either finishes or keeps running. *)
Lemma frame_shape t sv :
  exists v next msgs,
    frame t sv = (@mkSV M v next [], flat_map (fun cb => cb false) (sv_cancelled sv) ++ msgs) /\
    ((next = None /\ (msgs = [] \/
        exists a, sv_animation sv = Some a /\ msgs = fire (def_callback (an_def a)) true)) \/
     (exists a a', sv_animation sv = Some a /\ next = Some a' /\ an_def a' = an_def a /\
                   msgs = [])).
Proof.
  unfold frame. destruct (sv_animation sv) as [a|] eqn:Ea.
  - destruct (step_anim_shape a t) as [[E1 E2] | (a' & E1 & E2 & E3)];
      destruct (step_anim a t) as [[v next] msgs]; simpl in E1, E2 |- *;
      exists v, next, msgs; (split; [reflexivity|]).
    + left. split; [exact E1 | right; exists a; split; [reflexivity | exact E2]].
    + right. exists a, a'. split; [reflexivity | split; [exact E1 | split; assumption]].
  - do 3 eexists. split; [rewrite app_nil_r; reflexivity | left; split; [reflexivity | left; reflexivity]].
Qed.

Lemma frame_idle t sv :
  sv_animation sv = None ->
  frame t sv = (@mkSV M (sv_value sv) None [], flat_map (fun cb => cb false) (sv_cancelled sv)).
Proof. intro E. unfold frame. rewrite E. reflexivity. Qed.

(** A frame at a later timestamp keeps a shared value well formed. *)
Lemma frame_ok sv c t :
  sv_ok c sv -> c <= t -> sv_ok t (fst (frame t sv)).
Proof.
  intros [Hv Ha] Hct. unfold frame. destruct (sv_animation sv) as [a|] eqn:Ea.
  - destruct (step_anim_ok a c t (Ha a eq_refl) Hct) as [Hr Hn].
    destruct (step_anim a t) as [[v next] msgs]. split; assumption.
  - split; [assumption | discriminate].
Qed.

(** Timeline continuity: assigning a timing animation to the target of
    the running one, before it has finished, keeps its start value and
    start time.  Nothing is posted, and the previous animation's
    callback is queued for cancellation. *)
Lemma set_animation_continues d now sv p :
  sv_animation sv = Some p -> an_toValue p == def_toValue d -> ~ an_startTime p == 0 ->
  ~ sv_value sv == def_toValue d -> now < an_startTime p + duration (def_config d) ->
  exists v,
    set_animation d now sv =
      (@mkSV M v (Some (mkAnim d (an_startValue p) (an_startTime p) now))
         (sv_cancelled sv ++ cancelled_of (Some p)), []).
Proof.
  intros Ep Hto Hst Hv Hd. unfold set_animation. rewrite Ep.
  rewrite (proj2 (Qeq_bool_false_iff _ _) Hv).
  unfold onStart. rewrite (proj2 (Qeq_bool_iff _ _) Hto).
  rewrite (proj2 (Qeq_bool_false_iff _ _) Hst).
  cbn [andb negb]. unfold step_anim. cbn [an_timestamp].
  rewrite (proj2 (Qltb_false_iff now now) (Qle_refl now)).
  unfold onFrame, an_config. cbn [an_def an_startTime].
  rewrite (proj2 (Qle_bool_false_iff _ _)) by lra.
  eexists. reflexivity.
Qed.

(** A frame before the running animation's end keeps it running and
    posts only what the cancelled callbacks post. *)
Lemma frame_running sv a t :
  sv_animation sv = Some a -> an_timestamp a <= t ->
  t < an_startTime a + duration (an_config a) ->
  frame t sv =
    (@mkSV M (an_startValue a + (an_toValue a - an_startValue a) *
                easing (an_config a) ((t - an_startTime a) / duration (an_config a)))
       (Some (mkAnim (an_def a) (an_startValue a) (an_startTime a) t)) [],
     flat_map (fun cb => cb false) (sv_cancelled sv)).
Proof.
  intros Ea Hts Hd. unfold frame. rewrite Ea. unfold step_anim.
  rewrite (proj2 (Qltb_false_iff _ _) Hts). unfold onFrame.
  rewrite (proj2 (Qle_bool_false_iff _ _)) by lra.
  rewrite app_nil_r. reflexivity.
Qed.

(** A shared value whose value lies in the unit interval, and whose
    running timing animation goes between values of the unit interval
    with a lawful easing, keeps its value in the unit interval through
    any sequence of frames at non-decreasing timestamps.  No frame of a
    timing animation overshoots its start or its target. *)
Lemma frames_stay_in_unit_interval sv c ts :
  sv_ok c sv -> Sorted Qle (c :: ts) ->
  in01 (sv_value (fold_left (fun sv t => fst (frame t sv)) ts sv)).
Proof.
  revert sv c. induction ts as [|t ts IH]; intros sv c Hok Hs; [apply Hok|].
  apply Sorted_inv in Hs as [Hs Hhd]. apply HdRel_inv in Hhd.
  simpl. apply (IH _ t); [apply (frame_ok sv c t Hok Hhd) | exact Hs].
Qed.


(** A running timing animation finishes at the first frame whose
    timestamp is at least its start time plus its duration.  That frame
    writes the target value exactly and drops the animation.  The
    callbacks of cancelled animations run first with [false], and then
    the animation's own callback runs with [true]. *)
Lemma frame_completes sv a t :
  sv_animation sv = Some a -> an_timestamp a <= t ->
  an_startTime a + duration (an_config a) <= t ->
  frame t sv = (@mkSV M (an_toValue a) None [],
                flat_map (fun cb => cb false) (sv_cancelled sv)
                ++ fire (def_callback (an_def a)) true).
Proof.
  intros Ea Hts Hd. unfold frame. rewrite Ea. unfold step_anim.
  case_q; [lra|]. unfold onFrame. case_q; [reflexivity | lra].
Qed.

(** Assigning a number to a shared value cancels its running
    animation.  Reanimated then calls the cancelled animation's callback
    with [finished = false] at the next frame, so the messages of that
    frame are exactly what the callback posts for [false]. *)
Lemma cancel_fires_at_next_frame sv a cb v t :
  sv_animation sv = Some a -> def_callback (an_def a) = Some cb -> sv_cancelled sv = [] ->
  frame t (set_value v sv) = (@mkSV M v None [], cb false).
Proof.
  intros Ea Ecb Ec. unfold set_value, frame. rewrite Ea, Ec. simpl. rewrite Ecb. simpl.
  rewrite app_nil_r. reflexivity.
Qed.

(** Assigning a timing animation whose target equals the current
    value starts nothing.  The callback runs at once with
    [finished = true], and the running animation, if any, is cancelled. *)
Lemma set_animation_same_target sv d now :
  sv_value sv == def_toValue d ->
  set_animation d now sv =
    (@mkSV M (sv_value sv) None (sv_cancelled sv ++ cancelled_of (sv_animation sv)),
     fire (def_callback d) true).
Proof.
  intro E. unfold set_animation. apply Qeq_bool_iff in E. rewrite E. reflexivity.
Qed.

End Theorems.

End Timing.
