(* ===== verification/Gesture.v ===== *)
(** * react-native-gesture-handler's tap recognizer

    [ImageGalleryOverlay] wraps its view in a [TapGestureHandler] with
    [maxDeltaX={16}] and [maxDeltaY={16}] (source lines 79-83).  It
    listens to [onHandlerStateChange] with [tapEvent] (lines 68-72).
    This file models the part of react-native-gesture-handler that
    decides which state changes reach [tapEvent].  That is library code,
    outside this repository, so it is modelled from the library's
    documented behaviour:
    - the handler [State] codes, which [event.nativeEvent.state] and
      [oldState] carry as numbers, with their decoding;
    - the recognizer of a single tap.  A touch down begins the gesture.
      A move that leaves the tolerance box in either axis fails it, and
      a lift activates and ends it.  A system cancellation cancels it.
      After a final state the recognizer is ready for the next touch
      again, and that reset emits no event.

    [chain_from] checks that a stream of state changes is well formed:
    each one leaves the current state for another, and the handler is
    ready again after a final state.

    The timeouts [maxDurationMs] and [maxDelayMs] and multi-tap counting
    are not modelled, since the component keeps the single-tap
    defaults. *)

From S2P Require Import Prelude.
From Stdlib Require Import Qabs EquivDec.

Module Gesture.

Open Scope overlay_scope.
Open Scope Q_scope.

(** The handler states, with the numeric codes of [State]. *)
Inductive State := UNDETERMINED | FAILED | BEGAN | CANCELLED | ACTIVE | END.

Definition State_code (s : State) : Z :=
  match s with
  | UNDETERMINED => 0 | FAILED => 1 | BEGAN => 2
  | CANCELLED => 3 | ACTIVE => 4 | END => 5
  end%Z.

(** The handler state a native code stands for, if any. *)
Definition State_of_code (z : Z) : option State :=
  match z with
  | 0 => Some UNDETERMINED | 1 => Some FAILED | 2 => Some BEGAN
  | 3 => Some CANCELLED | 4 => Some ACTIVE | 5 => Some END
  | _ => None
  end%Z.

Definition State_eq_dec (s t : State) : {s = t} + {s <> t}.
Proof. decide equality. Defined.

#[export] Instance State_EqDec : EqDec State eq := State_eq_dec.

Definition State_eqb (s t : State) : bool := if State_eq_dec s t then true else false.

(** [event.nativeEvent] of an [onHandlerStateChange] event: the new and
    the previous state, as the numbers of [State]. *)
Record HandlerStateChangeEvent := mkEvent { ev_state : Z; ev_oldState : Z }.

(** The event for a change from [old] to [s]. *)
Definition change (s old : State) : HandlerStateChangeEvent := mkEvent (State_code s) (State_code old).

Inductive Touch :=
| TouchDown (x y : Q)
| TouchMove (x y : Q)
| TouchUp
| TouchCancel.

Record TapConfig := mkTapConfig { maxDeltaX : Q; maxDeltaY : Q }.

Record Recognizer := mkRec { rec_state : State; rec_startX : Q; rec_startY : Q }.

Definition initial : Recognizer := mkRec UNDETERMINED 0 0.

(** Whether a touch at [(x, y)] has left the tolerance box around the
    point where the gesture began. *)
Definition exceeds (cfg : TapConfig) (r : Recognizer) (x y : Q) : bool :=
  (maxDeltaX cfg <? Qabs (x - rec_startX r)) || (maxDeltaY cfg <? Qabs (y - rec_startY r)).

(** One touch: the next recognizer and the state changes it emits. *)
Definition on_touch (cfg : TapConfig) (r : Recognizer) (t : Touch)
  : Recognizer * list HandlerStateChangeEvent :=
  match rec_state r, t with
  | UNDETERMINED, TouchDown x y => (mkRec BEGAN x y, [change BEGAN UNDETERMINED])
  | BEGAN, TouchMove x y =>
      if exceeds cfg r x y then (initial, [change FAILED BEGAN]) else (r, [])
  | BEGAN, TouchUp => (initial, [change ACTIVE BEGAN; change END ACTIVE])
  | BEGAN, TouchCancel => (initial, [change CANCELLED BEGAN])
  | _, _ => (r, [])
  end.

Fixpoint on_touches (cfg : TapConfig) (r : Recognizer) (ts : list Touch)
  : Recognizer * list HandlerStateChangeEvent :=
  match ts with
  | [] => (r, [])
  | t :: ts' =>
      let '(r1, evs1) := on_touch cfg r t in
      let '(r2, evs2) := on_touches cfg r1 ts' in
      (r2, evs1 ++ evs2)
  end.

(** The moves of one gesture, as touch events. *)
Definition moves (ps : list (Q * Q)) : list Touch := map (fun '(x, y) => TouchMove x y) ps.

(** [event.nativeEvent.state === State.END] *)
Definition is_end (e : HandlerStateChangeEvent) : bool := Z.eqb (ev_state e) (State_code END).

(** The recognizer states between gestures and within one: waiting for a
    touch, or begun. *)
Definition rec_wf (r : Recognizer) : Prop := rec_state r = UNDETERMINED \/ rec_state r = BEGAN.

(** After a final state the handler is ready again, without an event. *)
Definition settle (s : State) : State :=
  match s with END | FAILED | CANCELLED => UNDETERMINED | _ => s end.

(** A well-formed stream of state changes from the handler state [cur]:
    each event carries valid codes, leaves the current state for a
    different one, and the handler settles after a final state.  The
    result is the state the stream ends in, or [None] if it is not
    well formed. *)
Fixpoint chain_from (cur : State) (evs : list HandlerStateChangeEvent) : option State :=
  match evs with
  | [] => Some cur
  | e :: es =>
      match State_of_code (ev_oldState e), State_of_code (ev_state e) with
      | Some o, Some n =>
          if State_eqb o cur && negb (State_eqb n cur) then chain_from (settle n) es else None
      | _, _ => None
      end
  end.

(** ** Lemmas *)

(** The native codes round-trip: decoding the code of a state gives it
    back, and a code that decodes to a state is that state's code. *)
Lemma State_of_code_code s : State_of_code (State_code s) = Some s.
Proof. destruct s; reflexivity. Qed.

Lemma State_code_of_code z s : State_of_code z = Some s -> State_code s = z.
Proof.
  unfold State_of_code.
  destruct z as [|p|p]; [| destruct p as [p|p|]; [destruct p as [p|p|] | destruct p as [p|p|] |] |];
    try destruct p; intro E; try discriminate; injection E as <-; reflexivity.
Qed.

Lemma State_eqb_refl s : State_eqb s s = true.
Proof. unfold State_eqb. destruct (State_eq_dec s s); congruence. Qed.

Lemma State_eqb_neq s t : s <> t -> State_eqb s t = false.
Proof. unfold State_eqb. destruct (State_eq_dec s t); congruence. Qed.

Lemma chain_from_app cur l1 l2 :
  chain_from cur (l1 ++ l2) =
  match chain_from cur l1 with Some c => chain_from c l2 | None => None end.
Proof.
  revert cur. induction l1 as [|e l1 IH]; intro cur; [reflexivity|]. cbn.
  destruct (State_of_code (ev_oldState e)), (State_of_code (ev_state e)); try reflexivity.
  destruct (_ && _); [apply IH | reflexivity].
Qed.

(** One touch keeps the recognizer in a state between or within
    gestures, and what it emits is a well-formed stream of state
    changes that ends in the recognizer's new state. *)
Lemma on_touch_wf cfg r t :
  rec_wf r ->
  rec_wf (fst (on_touch cfg r t)) /\
  chain_from (rec_state r) (snd (on_touch cfg r t)) = Some (rec_state (fst (on_touch cfg r t))).
Proof.
  unfold rec_wf, on_touch. intros [Hs | Hs]; rewrite Hs;
    destruct t; try destruct (exceeds cfg r x y); cbn; rewrite ?Hs; auto.
Qed.

Lemma on_touches_wf cfg r ts :
  rec_wf r ->
  rec_wf (fst (on_touches cfg r ts)) /\
  chain_from (rec_state r) (snd (on_touches cfg r ts)) = Some (rec_state (fst (on_touches cfg r ts))).
Proof.
  revert r. induction ts as [|t ts IH]; intros r Hr; [split; [exact Hr | reflexivity]|].
  cbn [on_touches]. destruct (on_touch_wf cfg r t Hr) as [Hr1 Hc1].
  destruct (on_touch cfg r t) as [r1 e1]. cbn in Hr1, Hc1.
  destruct (IH r1 Hr1) as [Hr2 Hc2]. destruct (on_touches cfg r1 ts) as [r2 e2].
  cbn in *. split; [exact Hr2|]. rewrite chain_from_app, Hc1. exact Hc2.
Qed.


Lemma on_touches_app cfg r ts1 ts2 :
  on_touches cfg r (ts1 ++ ts2) =
  let '(r1, e1) := on_touches cfg r ts1 in
  let '(r2, e2) := on_touches cfg r1 ts2 in (r2, e1 ++ e2).
Proof.
  revert r. induction ts1 as [|t ts1 IH]; intro r; simpl.
  - destruct (on_touches cfg r ts2). reflexivity.
  - destruct (on_touch cfg r t) as [r1 e1]. rewrite IH.
    destruct (on_touches cfg r1 ts1) as [r2 e2].
    destruct (on_touches cfg r2 ts2) as [r3 e3]. rewrite app_assoc. reflexivity.
Qed.

(** Moves that stay within the tolerance leave a begun gesture as it is
    and emit nothing. *)
Lemma moves_within cfg r ps :
  rec_state r = BEGAN -> Forall (fun '(x, y) => exceeds cfg r x y = false) ps ->
  on_touches cfg r (moves ps) = (r, []).
Proof.
  intros Hs. induction 1 as [|[x y] ps Hx _ IH]; [reflexivity|].
  simpl. unfold on_touch. rewrite Hs, Hx, IH. reflexivity.
Qed.

(** Once the recognizer is waiting for a touch down, moves and lifts do
    nothing. *)
Lemma idle_ignores cfg ts :
  Forall (fun t => match t with TouchDown _ _ => False | _ => True end) ts ->
  on_touches cfg initial ts = (initial, []).
Proof.
  induction 1 as [|t ts Ht _ IH]; [reflexivity|].
  destruct t; try contradiction; simpl; rewrite IH; reflexivity.
Qed.

(** Moves of a begun gesture, one of which leaves the tolerance box,
    fail it: the only event is [FAILED], and the recognizer is idle. *)
Lemma moves_exceeding cfg r ps :
  rec_state r = BEGAN -> Exists (fun '(x, y) => exceeds cfg r x y = true) ps ->
  on_touches cfg r (moves ps) = (initial, [change FAILED BEGAN]).
Proof.
  intros Hs. induction ps as [|[x y] ps IH]; intro Hex; [inversion Hex|].
  simpl. unfold on_touch at 1. rewrite Hs.
  destruct (exceeds cfg r x y) eqn:Ex.
  - rewrite idle_ignores; [reflexivity|].
    apply Forall_forall. intros t Ht. unfold moves in Ht.
    apply in_map_iff in Ht as [[? ?] [<- _]]. exact I.
  - inversion Hex as [? ? Hh|? ? Ht]; subst; [congruence|].
    rewrite IH by assumption. reflexivity.
Qed.

(** A touch that goes down, moves only within the tolerance box
    around where it went down, and lifts is recognized as one tap.  The
    handler emits [BEGAN], [ACTIVE] and [END], in this order, so [END]
    is emitted exactly once, and the recognizer is ready again. *)
Lemma tap_within_tolerance cfg x0 y0 ps :
  Forall (fun '(x, y) => exceeds cfg (mkRec BEGAN x0 y0) x y = false) ps ->
  on_touches cfg initial (TouchDown x0 y0 :: moves ps ++ [TouchUp]) =
    (initial, [change BEGAN UNDETERMINED; change ACTIVE BEGAN; change END ACTIVE]).
Proof.
  intro Hin. cbn [on_touches]. unfold on_touch at 1; cbn [rec_state initial].
  rewrite on_touches_app, moves_within by (reflexivity || assumption). reflexivity.
Qed.


(** A touch that leaves the tolerance box in either axis is not a
    tap.  Whatever follows before the next touch down, the handler emits
    no [END] state for it, only [BEGAN] and then [FAILED]. *)
Lemma drag_never_ends cfg x0 y0 ps rest :
  Exists (fun '(x, y) => exceeds cfg (mkRec BEGAN x0 y0) x y = true) ps ->
  Forall (fun t => match t with TouchDown _ _ => False | _ => True end) rest ->
  on_touches cfg initial (TouchDown x0 y0 :: moves ps ++ rest) =
    (initial, [change BEGAN UNDETERMINED; change FAILED BEGAN]).
Proof.
  intros Hex Hrest. cbn [on_touches]. unfold on_touch at 1; cbn [rec_state initial].
  rewrite on_touches_app, moves_exceeding, idle_ignores by (reflexivity || assumption).
  reflexivity.
Qed.


End Gesture.
