(* ===== verification/Theme.v ===== *)
(** * The theme and React Native style arrays

    [ImageGalleryOverlay] reads two values from the theme with
    [useTheme()] (source lines 28-35): [colors.overlay] and
    [imageGallery.grid.overlay].  It styles its view with a style array
    (lines 86-91).  This file models the parts of the theme and of React
    Native's styles that the component uses:
    - a style object is an association list from property names to
      values, in insertion order;
    - [absoluteFillObject] is [StyleSheet.absoluteFillObject];
    - [Theme] keeps the two theme entries that the component reads.  The
      theme context lives outside [src/], so it is modelled from the spec
      (section 6): a read-only value passed to the component;
    - [JsVal] is the JavaScript value the context holds, with the
      property reads of a destructuring pattern ([get]), which throw a
      [TypeError] on [undefined] and [null]; [theme_to_js] is the value
      of a context that holds a [Theme];
    - [flatten_js_get] reads a property of a flattened style array, as
      [StyleSheet.flatten] does on such values: a later entry overrides
      an earlier one, and an [undefined] property still overrides. *)

From S2P Require Import Prelude.

Module Theme.

Open Scope Q_scope.
Local Open Scope string_scope.

Inductive StyleValue := SNum (q : Q) | SStr (s : string).

(** A style object. *)
Definition Style : Type := list (string * StyleValue).

Definition absoluteFillObject : Style :=
  [("position", SStr "absolute"); ("left", SNum 0); ("right", SNum 0);
   ("top", SNum 0); ("bottom", SNum 0)].

Record Theme := mkTheme {
  colors_overlay : string;
  imageGallery_grid_overlay : Style
}.

(** ** JavaScript values, as [useTheme()] returns them

    The theme context's value is a JavaScript value.  Destructuring a
    property out of it reads that property, which first requires the
    value to be an object: on [undefined] or [null] it throws a
    [TypeError].  A missing property reads as [undefined], and so does
    any property of a number, string or boolean among those the
    component reads. *)
#[warnings="-register-all"]
Inductive JsVal :=
| JUndefined
| JNull
| JBool (b : bool)
| JNum (q : Q)
| JStr (s : string)
| JObj (props : list (string * JsVal)).

(** [TypeError: Cannot read properties of undefined (reading 'key')] *)
Inductive TypeError := CannotRead (key : string).

Definition nullish (v : JsVal) : bool :=
  match v with JUndefined | JNull => true | _ => false end.

(** [v.key] on a value that is not nullish. *)
Definition prop (v : JsVal) (key : string) : JsVal :=
  match v with
  | JObj ps => match find (fun kv => String.eqb key (fst kv)) ps with
               | Some (_, x) => x
               | None => JUndefined
               end
  | _ => JUndefined
  end.

(** The read of [key] by a destructuring pattern. *)
Definition get (v : JsVal) (key : string) : result JsVal TypeError :=
  if nullish v then Failure (CannotRead key) else Success (prop v key).

(** The JavaScript form of a style object and of a theme. *)
Definition style_to_js (st : Style) : JsVal :=
  JObj (map (fun '(k, v) => (k, match v with SNum q => JNum q | SStr c => JStr c end)) st).

Definition theme_to_js (th : Theme) : JsVal :=
  JObj [("theme", JObj [("colors", JObj [("overlay", JStr (colors_overlay th))]);
                        ("imageGallery", JObj [("grid",
                           JObj [("overlay", style_to_js (imageGallery_grid_overlay th))])])])].

(** An own property of an object, if it has one. *)
Definition obj_get (v : JsVal) (key : string) : option JsVal :=
  match v with
  | JObj ps => option_map snd (find (fun kv => String.eqb key (fst kv)) ps)
  | _ => None
  end.

(** [StyleSheet.flatten] on an array of JavaScript values, read for one
    key.  An entry that is not an object ([undefined], [null], a
    primitive) is skipped.  Every own property of an object entry is
    copied, an [undefined] value included, so a later entry overrides an
    earlier one.  [None] means that no entry sets the key. *)
Definition flatten_js_get (key : string) (sts : list JsVal) : option JsVal :=
  fold_left (fun acc st => match obj_get st key with Some v => Some v | None => acc end) sts None.

(** ** Lemmas *)

Lemma flatten_js_get_snoc k sts st :
  flatten_js_get k (sts ++ [st]) =
  match obj_get st k with Some v => Some v | None => flatten_js_get k sts end.
Proof. unfold flatten_js_get. rewrite fold_left_app. reflexivity. Qed.


End Theme.
