(* ===== verification/Overlay.v ===== *)
(** * The [ImageGalleryOverlay] component

    This file models
    [src/package/src/components/ImageGallery/components/ImageGalleryOverlay.tsx].
    - [Props] are the component's props (lines 19-23).  The state that
      React and Reanimated keep for one mounted instance is a field of
      [Sys]: [visible] and [fadedIn] ([useState], lines 37-38), the
      shared value [opacity] ([useSharedValue], line 40), and the last
      dependency of the effect.
    - [effect_body] is the [useEffect] body (lines 43-57), written in the
      state monad of [Prelude] so that it reads as the source does, one
      statement after another.  [commit] runs it when the dependency
      [currentBottomSheetIndex] changes (lines 42-59).
    - [fade_callback] is the completion callback (line 51).  It posts
      [setFadedIn(true)] to the JS thread whatever its [finished]
      argument.
    - [showOverlayStyle] is the animated style (lines 61-66).  [tapEvent]
      is the tap handler (lines 68-72).  [render] is the returned element
      (lines 74-94).
    - [step] is one event of the whole system (a re-render, a drag of the
      sheet, a frame, the delivery of a [runOnJS] message, or a touch),
      [run] a sequence of events, and [reachable] the states that a
      mount and any sequence of events produce.
    - [Phase], [spec_step] and [event_label] are the machine of section
      4 of the spec and the trigger each event is; [phase] reads a
      state's phase.  The lemmas [strict_step] and [strict_follows] show
      that each event moves the phase by its trigger's step as long as
      nothing is in flight when the overlay closes ([StrictInv]).

    The theorems show the following:
    - visibility follows the index in every reachable state;
    - the effect is idempotent, a close resets, and an open starts the
      fade;
    - enough frames complete the fade, and the opacity then tracks the
      drag;
    - opacities stay in the unit interval;
    - every message in flight sets [fadedIn] to [true];
    - a tap closes the grid exactly once, a drag never does, a hidden
      overlay ignores touches, and the handler reports a well-formed
      stream of state changes;
    - the [useTheme()] destructuring ([useTheme_destructure], lines
      28-35) throws exactly when an intermediate object is missing;
    - a re-render is React's two phases, and the first one commits the
      element of the old visibility;
    - each fade assigned to [opacity] posts exactly one
      [setFadedIn(true)];
    - the flattened style of the element [render_js] returns takes the
      animated opacity and the override's or the theme's background
      colour, [undefined] when both are missing. *)

From S2P Require Import Prelude Easing Timing Gesture Theme.

Module Overlay.

Import Easing Timing Gesture Theme.
Local Open Scope string_scope.
Open Scope overlay_scope.
Open Scope Q_scope.
Local Open Scope list_scope.

(** A call posted with [runOnJS]: [runOnJS(setFadedIn)(b)]. *)
Inductive JsMsg := SetFadedIn (b : bool).

(** [type Props].  [animatedBottomSheetIndex] is a shared value owned by
    the bottom sheet.  The component only reads its value, so the model
    keeps just that value ([drag] below).  [closeGridView] is observed
    through the number of its calls ([closes] below). *)
Record Props := mkProps {
  animatedBottomSheetIndex : Q;
  currentBottomSheetIndex : Z
}.

(** The system: the props, one mounted component, and what is in flight
    between its threads. *)
Record Sys := mkSys {
  theme : Theme;
  index : Z;                      (* props.currentBottomSheetIndex *)
  deps : option Z;                (* the dependency of the last effect run *)
  visible : bool;
  fadedIn : bool;
  opacity : SharedValue JsMsg;
  drag : Q;                       (* animatedBottomSheetIndex.value *)
  now : Q;                        (* timestamp of the latest frame *)
  inbox : list JsMsg;             (* runOnJS calls not yet run on the JS thread *)
  tap : Recognizer;               (* the TapGestureHandler while mounted *)
  closes : nat                    (* calls of closeGridView *)
}.

(** ** Field updates *)

Definition set_index i s := mkSys (theme s) i (deps s) (visible s) (fadedIn s)
  (opacity s) (drag s) (now s) (inbox s) (tap s) (closes s).
Definition set_deps d s := mkSys (theme s) (index s) d (visible s) (fadedIn s)
  (opacity s) (drag s) (now s) (inbox s) (tap s) (closes s).
Definition set_visible b s := mkSys (theme s) (index s) (deps s) b (fadedIn s)
  (opacity s) (drag s) (now s) (inbox s) (tap s) (closes s).
Definition set_fadedIn b s := mkSys (theme s) (index s) (deps s) (visible s) b
  (opacity s) (drag s) (now s) (inbox s) (tap s) (closes s).
Definition set_opacity sv s := mkSys (theme s) (index s) (deps s) (visible s) (fadedIn s)
  sv (drag s) (now s) (inbox s) (tap s) (closes s).
Definition set_drag q s := mkSys (theme s) (index s) (deps s) (visible s) (fadedIn s)
  (opacity s) q (now s) (inbox s) (tap s) (closes s).
Definition set_now t s := mkSys (theme s) (index s) (deps s) (visible s) (fadedIn s)
  (opacity s) (drag s) t (inbox s) (tap s) (closes s).
Definition set_inbox l s := mkSys (theme s) (index s) (deps s) (visible s) (fadedIn s)
  (opacity s) (drag s) (now s) l (tap s) (closes s).
Definition set_tap r s := mkSys (theme s) (index s) (deps s) (visible s) (fadedIn s)
  (opacity s) (drag s) (now s) (inbox s) r (closes s).
Definition set_closes n s := mkSys (theme s) (index s) (deps s) (visible s) (fadedIn s)
  (opacity s) (drag s) (now s) (inbox s) (tap s) n.

Arguments set_index _ _ /.
Arguments set_deps _ _ /.
Arguments set_visible _ _ /.
Arguments set_fadedIn _ _ /.
Arguments set_opacity _ _ /.
Arguments set_drag _ _ /.
Arguments set_now _ _ /.
Arguments set_inbox _ _ /.
Arguments set_tap _ _ /.
Arguments set_closes _ _ /.

(** ** The component *)

(** [const [visible, setVisible] = useState(false)] and
    [const [fadedIn, setFadedIn] = useState(false)]. *)
Definition setVisible (b : bool) : St Sys unit := st_modify (set_visible b).
Definition setFadedIn (b : bool) : St Sys unit := st_modify (set_fadedIn b).

(** [() => runOnJS(setFadedIn)(true)]: the callback ignores [finished]. *)
Definition fade_callback : Callback := fun _ => [SetFadedIn true].

(** [{ duration: 200, easing: Easing.out(Easing.ease) }] *)
Definition fade_config : TimingConfig := mkConfig 200 (out ease).

Definition fade_def : AnimationDef JsMsg := withTiming 1 fade_config (Some fade_callback).

(** [opacity.value = withTiming(1, fade_config, fade_callback)]: an
    immediate callback posts its messages to the JS thread. *)
Definition animate_opacity : St Sys unit :=
  st_modify (fun s =>
    let '(sv, msgs) := set_animation fade_def (now s) (opacity s) in
    set_inbox (inbox s ++ msgs) (set_opacity sv s)).

(** [opacity.value = 0] *)
Definition reset_opacity : St Sys unit :=
  st_modify (fun s => set_opacity (set_value 0 (opacity s)) s).

(** The body of the [useEffect]. *)
Definition effect_body (currentBottomSheetIndex : Z) : St Sys unit :=
  if (0 <? currentBottomSheetIndex)%Z then
    setVisible true ;;
    animate_opacity
  else
    setVisible false ;;
    reset_opacity ;;
    setFadedIn false.

(** [useEffect(..., [currentBottomSheetIndex])]: the body runs on mount
    and whenever the dependency changes. *)
Definition run_effect (i : Z) (s : Sys) : Sys :=
  match deps s with
  | Some d => if Z.eqb d i then s else st_exec (effect_body i) (set_deps (Some i) s)
  | None => st_exec (effect_body i) (set_deps (Some i) s)
  end.

(** While [visible] is false the component renders [null]: the
    [TapGestureHandler] is unmounted, and a later mount starts from a
    fresh recognizer. *)
Definition unmount_handler (s : Sys) : Sys :=
  if visible s then s else set_tap Gesture.initial s.

(** A render with new props, its commit, and the effect. *)
Definition commit (i : Z) (s : Sys) : Sys :=
  unmount_handler (run_effect i (set_index i s)).

(** React handles new props in two phases.  [render_commit] renders the
    component with the new props and commits the element.  The state is
    not updated yet, so the element is the one of the old [visible]
    (line 74); when it is [null] the handler is unmounted.
    [flush_effects] then runs the passive effect if its dependency
    changed (lines 42-59), and its [setState] calls cause one more
    render and commit. *)
Definition render_commit (i : Z) (s : Sys) : Sys := unmount_handler (set_index i s).

Definition flush_effects (s : Sys) : Sys := unmount_handler (run_effect (index s) s).

(** [useAnimatedStyle(() => ({ opacity: fadedIn ? animatedBottomSheetIndex.value
    : opacity.value }), [fadedIn])] *)
Definition showOverlayStyle (s : Sys) : Q :=
  if fadedIn s then drag s else sv_value (opacity s).

Definition closeGridView : St Sys unit := st_modify (fun s => set_closes (S (closes s)) s).

(** [if (event.nativeEvent.state === State.END) closeGridView()] *)
Definition tapEvent (event : HandlerStateChangeEvent) : St Sys unit :=
  if Z.eqb (ev_state event) (State_code END) then closeGridView else st_ret tt.

(** [maxDeltaX={16}], [maxDeltaY={16}] *)
Definition overlay_tap_config : TapConfig := mkTapConfig 16 16.

(** The destructuring of [useTheme()] (lines 28-35), read from the
    context's JavaScript value.  Each nested pattern reads a property of
    the value above it, and throws if that value is [undefined] or
    [null]. *)
Definition useTheme_destructure (ctx : JsVal) : result (JsVal * JsVal) TypeError :=
  let? theme := get ctx "theme" in
  let? colors := get theme "colors" in
  let? overlayColor := get colors "overlay" in
  let? imageGallery := get theme "imageGallery" in
  let? grid := get imageGallery "grid" in
  let? overlay := get grid "overlay" in
  Success (overlayColor, overlay).

(** The same destructuring on a context that holds a [Theme]:
    [colors.overlay] and [imageGallery.grid.overlay]. *)
Definition theme_values (t : Theme) : string * Style :=
  (colors_overlay t, imageGallery_grid_overlay t).

(** The rendered element: a [TapGestureHandler] around an
    [Animated.View]. *)
Record View := mkView {
  testID : string;
  view_maxDeltaX : Q;
  view_maxDeltaY : Q;
  view_style : list Style
}.

Definition overlay_style (s : Sys) : list Style :=
  let '(overlayColor, overlay) := theme_values (theme s) in
  [absoluteFillObject; [("backgroundColor", SStr overlayColor)]; overlay;
   [("opacity", SNum (showOverlayStyle s))]].

Definition render (s : Sys) : option View :=
  if negb (visible s) then None
  else Some (mkView "image-gallery-overlay" (maxDeltaX overlay_tap_config)
               (maxDeltaY overlay_tap_config) (overlay_style s)).

(** The component's body on the theme context's JavaScript value.  The
    [useTheme()] destructuring runs first (lines 28-35), before the
    early return of line 74, so a [TypeError] it throws escapes the
    render whatever [visible] is.  The style array is built from the two
    values it read (lines 86-91). *)
Record ViewJs := mkViewJs {
  js_testID : string;
  js_maxDeltaX : Q;
  js_maxDeltaY : Q;
  js_style : list JsVal
}.

Definition render_js (ctx : JsVal) (s : Sys) : result (option ViewJs) TypeError :=
  let? vals := useTheme_destructure ctx in
  let '(overlayColor, overlay) := vals in
  if negb (visible s) then Success None
  else Success (Some (mkViewJs "image-gallery-overlay" (maxDeltaX overlay_tap_config)
         (maxDeltaY overlay_tap_config)
         [style_to_js absoluteFillObject; JObj [("backgroundColor", overlayColor)]; overlay;
          JObj [("opacity", JNum (showOverlayStyle s))]])).

(** [ImageGalleryOverlay.displayName] *)
Definition displayName : string := "ImageGrid{imageGallery{grid{overlay}}}".

(** The operations on [opacity]: the component's two writes,
    [opacity.value = withTiming(...)] (lines 45-52) and
    [opacity.value = 0] (line 55), and the UI frames. *)
Inductive OpacityOp :=
| AssignFade (now : Q)
| AssignZero
| FrameAt (t : Q).

Definition opacity_op (op : OpacityOp) (sv : SharedValue JsMsg) : SharedValue JsMsg * list JsMsg :=
  match op with
  | AssignFade now => set_animation fade_def now sv
  | AssignZero => (set_value 0 sv, [])
  | FrameAt t => frame t sv
  end.

Fixpoint opacity_ops (ops : list OpacityOp) (sv : SharedValue JsMsg)
  : SharedValue JsMsg * list JsMsg :=
  match ops with
  | [] => (sv, [])
  | op :: ops' =>
      let '(sv1, m1) := opacity_op op sv in
      let '(sv2, m2) := opacity_ops ops' sv1 in
      (sv2, m1 ++ m2)
  end.

Definition count_fades (ops : list OpacityOp) : nat :=
  List.length (filter (fun op => match op with AssignFade _ => true | _ => false end) ops).

(** ** The system *)

Inductive Event :=
| Rerender (i : Z)
| Drag (q : Q)
| Frame (t : Q)
| DeliverJs
| Touch (t : Gesture.Touch).

(** The JS thread runs one posted call. *)
Definition deliver (m : JsMsg) : St Sys unit :=
  match m with SetFadedIn b => setFadedIn b end.

(** [onHandlerStateChange]: [tapEvent] for each state change, in order. *)
Fixpoint dispatch (evs : list HandlerStateChangeEvent) : St Sys unit :=
  match evs with
  | [] => st_ret tt
  | e :: es => tapEvent e ;; dispatch es
  end.

Definition step (s : Sys) (e : Event) : Sys :=
  match e with
  | Rerender i => commit i s
  | Drag q => set_drag q s
  | Frame t =>
      if now s <=? t then
        let '(sv, msgs) := frame t (opacity s) in
        set_inbox (inbox s ++ msgs) (set_opacity sv (set_now t s))
      else s
  | DeliverJs =>
      match inbox s with
      | [] => s
      | m :: rest => st_exec (deliver m) (set_inbox rest s)
      end
  | Touch t =>
      if visible s then
        let '(r, evs) := on_touch overlay_tap_config (tap s) t in
        st_exec (dispatch evs) (set_tap r s)
      else s
  end.

Definition run (s : Sys) (evs : list Event) : Sys := fold_left step evs s.

(** The state before the first commit: both [useState(false)] and
    [useSharedValue(0)], with the drag value and clock given. *)
Definition initial_sys (th : Theme) (drag0 t0 : Q) (i0 : Z) : Sys :=
  mkSys th i0 None false false (useSharedValue 0) drag0 t0 [] Gesture.initial 0.

Definition mount (th : Theme) (drag0 t0 : Q) (i0 : Z) : Sys :=
  commit i0 (initial_sys th drag0 t0 i0).

Inductive reachable : Sys -> Prop :=
| reachable_mount th drag0 t0 i0 : reachable (mount th drag0 t0 i0)
| reachable_step s e : reachable s -> reachable (step s e).

(** Two concrete mounts, at clock 1000 with the sheet dragged half open:
    one opened at index 1 and one closed at index 0. *)
Definition witness_theme : Theme := mkTheme "rgba(0, 0, 0, 0.8)" [].
Definition witness_open : Sys := mount witness_theme (1 # 2) 1000 1.
Definition witness_closed : Sys := mount witness_theme (1 # 2) 1000 0.

(** A state with traffic on both channels: the overlay was closed 16
    units into its fade, whose callback posted at the next frame, then
    reopened and closed again, which cancels the second fade. *)
Definition witness_inflight : Sys :=
  run witness_open [Rerender 0; Frame 1016; Rerender 1; Rerender 0].

(** ** The invariant of reachable states *)

(** The shared value [opacity] only ever runs the fade.  It is well
    formed, its running animation is the fade, and its cancelled
    callbacks are the fade's callback. *)
Definition fade_sv_ok (c : Q) (sv : SharedValue JsMsg) : Prop :=
  sv_ok c sv /\ (forall a, sv_animation sv = Some a -> an_def a = fade_def) /\
  Forall (fun cb => cb = fade_callback) (sv_cancelled sv).

(** Messages that all set [fadedIn] to [true]. *)
Definition completions (msgs : list JsMsg) : Prop :=
  Forall (fun m => m = SetFadedIn true) msgs.

Record Inv (s : Sys) : Prop := mkInv {
  inv_deps : deps s = Some (index s);
  inv_visible : visible s = (0 <? index s)%Z;
  inv_opacity : fade_sv_ok (now s) (opacity s);
  inv_inbox : completions (inbox s);
  inv_hidden : visible s = false ->
    sv_value (opacity s) = 0 /\ sv_animation (opacity s) = None /\ tap s = Gesture.initial
}.

(** ** The machine of the spec

    Section 4 of the spec describes the overlay as a machine over three
    phases.  The index becoming positive opens a hidden overlay, the
    completion of the entrance fade shows a fading one, and the index
    dropping to at most 0 hides it; every other event keeps the phase.
    [phase] reads the phase off a state, and [event_label] is the
    trigger of that table which an event of the system is: it depends
    on the event and on the state, never on what the component does
    with them. *)
Inductive Phase := Hidden | FadingIn | Shown.

Inductive Label := LOpen | LComplete | LClose | LStay.

Inductive spec_step : Phase -> Label -> Phase -> Prop :=
| spec_open : spec_step Hidden LOpen FadingIn
| spec_complete : spec_step FadingIn LComplete Shown
| spec_close_fading : spec_step FadingIn LClose Hidden
| spec_close_shown : spec_step Shown LClose Hidden
| spec_stay p : spec_step p LStay p.

Definition phase (s : Sys) : Phase :=
  if visible s then (if fadedIn s then Shown else FadingIn) else Hidden.

(** A rerender opens when the index goes from at most 0 to positive and
    closes when it goes from positive to at most 0.  A delivery is the
    completion when it hands [setFadedIn(true)] to a visible overlay
    that has not faded in yet. *)
Definition event_label (s : Sys) (e : Event) : Label :=
  match e with
  | Rerender i =>
      if (0 <? i)%Z then (if (0 <? index s)%Z then LStay else LOpen)
      else (if (0 <? index s)%Z then LClose else LStay)
  | DeliverJs =>
      match inbox s with
      | SetFadedIn true :: _ => if visible s && negb (fadedIn s) then LComplete else LStay
      | _ => LStay
      end
  | _ => LStay
  end.

(** The first render opens when the initial index is positive. *)
Definition mount_label (i0 : Z) : Label := if (0 <? i0)%Z then LOpen else LStay.

(** A run follows the machine when each event moves the phase by the
    machine's step for that event's trigger. *)
Fixpoint follows (s : Sys) (evs : list Event) : Prop :=
  match evs with
  | [] => True
  | e :: es => spec_step (phase s) (event_label s e) (phase (step s e)) /\ follows (step s e) es
  end.

(** Nothing in flight: no animation running, no cancelled callback
    pending, no message on its way to the JS thread. *)
Definition quiescent (s : Sys) : Prop :=
  sv_animation (opacity s) = None /\ sv_cancelled (opacity s) = [] /\ inbox s = [].

(** An event that cannot leave a stale completion behind: it closes a
    shown overlay only when nothing is in flight. *)
Definition no_stale (s : Sys) (e : Event) : Prop :=
  match e with
  | Rerender i => (i <= 0)%Z -> visible s = true -> quiescent s
  | _ => True
  end.

Fixpoint no_stale_run (s : Sys) (evs : list Event) : Prop :=
  match evs with
  | [] => True
  | e :: es => no_stale s e /\ no_stale_run (step s e) es
  end.

(** The invariant under which the component follows the machine: a
    hidden overlay has [fadedIn] false and nothing in flight. *)
Definition StrictInv (s : Sys) : Prop :=
  Inv s /\ (visible s = false -> fadedIn s = false /\ quiescent s).

Lemma fade_def_ok : def_ok fade_def.
Proof. split; [apply in01_1 | split; [unfold fade_def; simpl; lra | exact _]]. Qed.

Lemma completions_app l1 l2 : completions l1 -> completions l2 -> completions (l1 ++ l2).
Proof. intros H1 H2. apply Forall_app. split; assumption. Qed.

Lemma completions_fire b : completions (fire (Some fade_callback) b).
Proof. destruct b; cbn; repeat constructor. Qed.

Lemma completions_cancelled cbs :
  Forall (fun cb => cb = fade_callback) cbs -> completions (flat_map (fun cb => cb false) cbs).
Proof.
  induction 1 as [|cb cbs Hcb _ IH]; [constructor|]. subst cb.
  apply completions_app; [apply completions_fire | exact IH].
Qed.

Lemma cancelled_fade_ok sv :
  (forall a, sv_animation sv = Some a -> an_def a = fade_def) ->
  Forall (fun cb => cb = fade_callback) (cancelled_of (sv_animation sv)).
Proof.
  intros Hdef. destruct (sv_animation sv) as [a|] eqn:Ea; simpl; [|constructor].
  rewrite (Hdef a eq_refl). repeat constructor.
Qed.

Lemma animate_fade_ok c sv :
  fade_sv_ok c sv ->
  fade_sv_ok c (fst (set_animation fade_def c sv)) /\
  completions (snd (set_animation fade_def c sv)).
Proof.
  intros [Hok [Hdef Hcb]].
  pose proof (set_animation_ok sv fade_def c Hok fade_def_ok) as Hok'.
  pose proof (cancelled_fade_ok sv Hdef) as Hc.
  destruct (set_animation_shape fade_def c sv) as (v & next & msgs & E & Hcase).
  rewrite E in *. simpl in *. split; [split; [exact Hok' | split] |].
  - intros a Ea. simpl in Ea. destruct Hcase as [[-> _] | (a' & -> & Ha' & _)]; congruence.
  - apply Forall_app. split; assumption.
  - destruct Hcase as [[_ ->] | (_ & _ & _ & ->)]; [apply (completions_fire true) | constructor].
Qed.

Lemma reset_fade_ok c sv : fade_sv_ok c sv -> fade_sv_ok c (set_value 0 sv).
Proof.
  intros [Hok [Hdef Hcb]]. split; [apply set_value_ok, in01_0 | split; [discriminate|]].
  apply Forall_app. split; [exact Hcb | apply (cancelled_fade_ok sv Hdef)].
Qed.

Lemma frame_fade_ok c t sv :
  fade_sv_ok c sv -> c <= t ->
  fade_sv_ok t (fst (frame t sv)) /\ completions (snd (frame t sv)).
Proof.
  intros [Hok [Hdef Hcb]] Hct.
  pose proof (frame_ok sv c t Hok Hct) as Hok'.
  destruct (frame_shape t sv) as (v & next & msgs & E & Hcase).
  rewrite E in *. simpl in *. split; [split; [exact Hok' | split; [| constructor]] |].
  - intros a Ea. simpl in Ea.
    destruct Hcase as [[-> _] | (a0 & a' & E0 & -> & Ha' & _)]; [discriminate|].
    injection Ea as <-. rewrite Ha'. apply Hdef, E0.
  - apply completions_app; [apply completions_cancelled, Hcb|].
    destruct Hcase as [[_ [-> | (a & E0 & ->)]] | (_ & _ & _ & _ & _ & ->)]; try constructor.
    rewrite (Hdef a E0). apply completions_fire.
Qed.

(** Field updates, unfolded down to the record's projections. *)
Ltac unfold_sys :=
  cbn [set_index set_deps set_visible set_fadedIn set_opacity set_drag set_now set_inbox
       set_tap set_closes index deps visible fadedIn opacity drag now inbox tap closes theme].

(** The effect for a positive index: [setVisible(true)], then the fade. *)
Lemma effect_open s i :
  (0 < i)%Z ->
  st_exec (effect_body i) s =
  set_inbox (inbox s ++ snd (set_animation fade_def (now s) (opacity s)))
    (set_opacity (fst (set_animation fade_def (now s) (opacity s))) (set_visible true s)).
Proof.
  intro Hi. unfold effect_body. apply Z.ltb_lt in Hi. rewrite Hi.
  unfold st_exec, st_bind, animate_opacity, setVisible, st_modify. cbn.
  destruct (set_animation fade_def (now s) (opacity s)). reflexivity.
Qed.

(** The effect for an index at most 0: [setVisible(false)],
    [opacity.value = 0], [setFadedIn(false)]. *)
Lemma effect_close s i :
  (i <= 0)%Z ->
  st_exec (effect_body i) s =
  set_fadedIn false (set_opacity (set_value 0 (opacity s)) (set_visible false s)).
Proof.
  intro Hi. unfold effect_body. apply Z.ltb_ge in Hi. rewrite Hi. reflexivity.
Qed.

(** [onHandlerStateChange] only counts the [END] states into
    [closeGridView] calls. *)
Lemma tapEvent_is_end e : tapEvent e = if is_end e then closeGridView else st_ret tt.
Proof. reflexivity. Qed.

Lemma dispatch_closes evs s :
  st_exec (dispatch evs) s = set_closes (closes s + List.length (filter is_end evs)) s.
Proof.
  revert s. induction evs as [|e evs IH]; intro s.
  - unfold_sys. destruct s. simpl. rewrite Nat.add_0_r. reflexivity.
  - cbn [dispatch filter]. unfold st_exec, st_bind in *. rewrite tapEvent_is_end.
    destruct (is_end e); cbn; rewrite IH; unfold_sys; f_equal; cbn; lia.
Qed.

(** The state after the effect has run for a new dependency [i]. *)
Lemma inv_after_effect s i :
  fade_sv_ok (now s) (opacity s) -> completions (inbox s) ->
  Inv (unmount_handler (st_exec (effect_body i) (set_deps (Some i) (set_index i s)))).
Proof.
  intros Hop Hin. unfold effect_body. destruct (0 <? i)%Z eqn:Hi.
  - destruct (animate_fade_ok (now s) (opacity s) Hop) as [H1 H2].
    destruct (set_animation fade_def (now s) (opacity s)) as [sv msgs] eqn:E.
    unfold st_exec, st_bind, animate_opacity, setVisible, setFadedIn, st_modify.
    cbn. rewrite E. cbn in H1, H2 |- *.
    constructor; cbn; try assumption; try discriminate; try reflexivity; [symmetry; exact Hi|].
    apply completions_app; assumption.
  - unfold st_exec, st_bind, reset_opacity, setVisible, setFadedIn, st_modify, unmount_handler.
    cbn. constructor; cbn; try assumption; try reflexivity.
    + symmetry. exact Hi.
    + apply reset_fade_ok, Hop.
    + intros _. split; [reflexivity | split; reflexivity].
Qed.

Lemma commit_same s : Inv s -> commit (index s) s = s.
Proof.
  intros [Hd _ _ _ Hh]. unfold commit, run_effect. unfold_sys. rewrite Hd, Z.eqb_refl.
  unfold unmount_handler. destruct s as [th i d v f op dr t ib r n]; cbn in *. subst d.
  destruct v; [reflexivity|]. destruct (Hh eq_refl) as (_ & _ & ->). reflexivity.
Qed.

Lemma commit_changed s i :
  deps s = Some (index s) -> index s <> i ->
  commit i s = unmount_handler (st_exec (effect_body i) (set_deps (Some i) (set_index i s))).
Proof.
  intros Hd Hne. unfold commit, run_effect. unfold set_index at 1. cbn. rewrite Hd.
  apply Z.eqb_neq in Hne. rewrite Hne. reflexivity.
Qed.

(** [commit] is the two phases run back to back. *)
Lemma commit_two_phases s i : Inv s -> commit i s = flush_effects (render_commit i s).
Proof.
  intros [_ _ _ _ Hh]. unfold commit, flush_effects, render_commit.
  destruct s as [th ix d v f op dr t ib r n]; cbn in Hh.
  destruct v; [reflexivity|]. destruct (Hh eq_refl) as (_ & _ & ->). reflexivity.
Qed.

(** The element committed before the effect only depends on the state,
    not on the new index. *)
Lemma render_render_commit s i : render (render_commit i s) = render s.
Proof.
  unfold render, render_commit, unmount_handler. cbn [visible set_index].
  destruct (visible s); reflexivity.
Qed.

(** A commit that closes, in closed form. *)
Lemma commit_close s i :
  deps s = Some (index s) -> index s <> i -> (i <= 0)%Z ->
  commit i s = mkSys (theme s) i (Some i) false false (set_value 0 (opacity s)) (drag s)
                 (now s) (inbox s) Gesture.initial (closes s).
Proof.
  intros Hd Hne Hi. rewrite commit_changed by assumption. rewrite effect_close by exact Hi.
  reflexivity.
Qed.

(** A commit that opens, in closed form. *)
Lemma commit_open s i :
  deps s = Some (index s) -> index s <> i -> (0 < i)%Z ->
  commit i s = mkSys (theme s) i (Some i) true (fadedIn s)
                 (fst (set_animation fade_def (now s) (opacity s))) (drag s) (now s)
                 (inbox s ++ snd (set_animation fade_def (now s) (opacity s))) (tap s) (closes s).
Proof.
  intros Hd Hne Hi. rewrite commit_changed by assumption. rewrite effect_open by exact Hi.
  reflexivity.
Qed.

(** The mount, in closed form: an opening mount starts the fade. *)
Lemma mount_open th drag0 t0 i0 :
  (0 < i0)%Z ->
  mount th drag0 t0 i0 =
  mkSys th i0 (Some i0) true false (fst (set_animation fade_def t0 (useSharedValue 0))) drag0 t0
    ([] ++ snd (set_animation fade_def t0 (useSharedValue 0))) Gesture.initial 0.
Proof.
  intro Hi. unfold mount, commit, run_effect. cbn [deps initial_sys set_index].
  rewrite effect_open by exact Hi. reflexivity.
Qed.

(** A mount at an index at most 0 renders nothing. *)
Lemma mount_close th drag0 t0 i0 :
  (i0 <= 0)%Z ->
  mount th drag0 t0 i0 =
  mkSys th i0 (Some i0) false false (set_value 0 (useSharedValue 0)) drag0 t0 [] Gesture.initial 0.
Proof.
  intro Hi. unfold mount, commit, run_effect. cbn [deps initial_sys set_index].
  rewrite effect_close by exact Hi. reflexivity.
Qed.

Lemma inv_commit s i : Inv s -> Inv (commit i s).
Proof.
  intro H. destruct (Z.eq_dec (index s) i) as [<-|Hne].
  - rewrite commit_same by exact H. exact H.
  - rewrite commit_changed by (apply H || exact Hne).
    apply inv_after_effect; apply H.
Qed.

Lemma inv_mount th drag0 t0 i0 : Inv (mount th drag0 t0 i0).
Proof.
  unfold mount, commit, run_effect. cbn [deps initial_sys set_index].
  apply inv_after_effect; cbn.
  - split; [split; [apply in01_0 | discriminate] | split; [discriminate | constructor]].
  - constructor.
Qed.

Lemma inv_frame s t : Inv s -> Inv (step s (Frame t)).
Proof.
  intros [Hd Hv Hop Hin Hh]. cbn [step]. case_q; [|constructor; assumption].
  destruct (frame_fade_ok (now s) t (opacity s) Hop E) as [H1 H2].
  destruct (frame t (opacity s)) as [sv msgs] eqn:Ef. unfold_sys. cbn in H1, H2.
  constructor; cbn; try assumption.
  - apply completions_app; assumption.
  - intro Hf. destruct (Hh Hf) as (Hval & Hanim & Htap).
    rewrite frame_idle in Ef by exact Hanim. injection Ef as <- _.
    cbn. split; [exact Hval | split; [reflexivity | exact Htap]].
Qed.

Lemma inv_deliver s : Inv s -> Inv (step s DeliverJs).
Proof.
  intro H. cbn [step]. destruct (inbox s) as [|m rest] eqn:Ei; [exact H|].
  destruct H as [Hd Hv Hop Hin Hh]. rewrite Ei in Hin.
  inversion Hin as [|? ? Hm Hrest]; subst m.
  constructor; unfold st_exec; cbn; assumption.
Qed.

Lemma inv_touch s t : Inv s -> Inv (step s (Touch t)).
Proof.
  intro H. cbn [step]. destruct (visible s) eqn:Evis; [|exact H].
  destruct H as [Hd Hv Hop Hin Hh].
  destruct (on_touch overlay_tap_config (tap s) t) as [r evs].
  rewrite dispatch_closes. constructor; unfold_sys; try assumption. congruence.
Qed.

Lemma inv_step s e : Inv s -> Inv (step s e).
Proof.
  intro H. destruct e as [i|q|t| |t].
  - apply inv_commit, H.
  - destruct H. constructor; assumption.
  - apply inv_frame, H.
  - apply inv_deliver, H.
  - apply inv_touch, H.
Qed.

Lemma reachable_inv s : reachable s -> Inv s.
Proof. induction 1; [apply inv_mount | apply inv_step; assumption]. Qed.

Lemma inv_run s evs : Inv s -> Inv (run s evs).
Proof.
  revert s. induction evs as [|e evs IH]; intros s H; [exact H|]. apply IH, inv_step, H.
Qed.

Lemma reachable_run s evs : reachable s -> reachable (run s evs).
Proof.
  revert s. induction evs as [|e evs IH]; intros s H; [exact H|].
  apply IH. constructor. exact H.
Qed.

(** The effect only writes [visible], [fadedIn], [opacity] and the
    queue, and [run_effect] also the dependency: the theme, the index,
    the drag value, the clock, the handler and the close count are left
    alone. *)
Lemma effect_shape s i :
  exists v f op ib,
    st_exec (effect_body i) s =
    mkSys (theme s) (index s) (deps s) v f op (drag s) (now s) ib (tap s) (closes s).
Proof.
  unfold effect_body. destruct (0 <? i)%Z; [|do 4 eexists; reflexivity].
  unfold st_exec, st_bind, animate_opacity, setVisible, st_modify. cbn.
  destruct (set_animation fade_def (now s) (opacity s)). do 4 eexists. reflexivity.
Qed.

Lemma run_effect_shape s i :
  exists d v f op ib,
    run_effect i s = mkSys (theme s) (index s) d v f op (drag s) (now s) ib (tap s) (closes s).
Proof.
  unfold run_effect. destruct (deps s) as [d|]; [destruct (Z.eqb d i)|];
    try (destruct s; do 5 eexists; reflexivity);
    destruct (effect_shape (set_deps (Some i) s) i) as (v & f & op & ib & ->);
    do 5 eexists; reflexivity.
Qed.


Lemma tap_commit s i : tap (commit i s) = tap s \/ tap (commit i s) = Gesture.initial.
Proof.
  unfold commit, unmount_handler.
  destruct (run_effect_shape (set_index i s) i) as (d & v & f & op & ib & ->).
  destruct v; [left | right]; reflexivity.
Qed.


(** The displayed opacity of a state of the invariant lies in the unit
    interval when the drag value does. *)
Lemma showOverlayStyle_in01 s : Inv s -> in01 (drag s) -> in01 (showOverlayStyle s).
Proof.
  intros Hinv Hd. unfold showOverlayStyle. destruct (fadedIn s); [exact Hd|].
  apply (inv_opacity _ Hinv).
Qed.

(** In every reachable state the tap recognizer is between gestures or
    within one. *)
Lemma reachable_tap_wf s : reachable s -> rec_wf (tap s).
Proof.
  induction 1 as [th drag0 t0 i0 | s e _ IH].
  - destruct (tap_commit (initial_sys th drag0 t0 i0) i0) as [E|E]; unfold mount;
      rewrite E; left; reflexivity.
  - destruct e as [i|q|t| |t]; cbn [step].
    + destruct (tap_commit s i) as [-> | ->]; [exact IH | left; reflexivity].
    + exact IH.
    + case_q; [|exact IH]. destruct (frame t (opacity s)). exact IH.
    + destruct (inbox s) as [|[b] rest]; [exact IH | exact IH].
    + destruct (visible s); [|exact IH].
      destruct (on_touch_wf overlay_tap_config (tap s) t IH) as [Hr _].
      destruct (on_touch overlay_tap_config (tap s) t) as [r evs].
      rewrite dispatch_closes. exact Hr.
Qed.

(** ** Accounting for the fade's callbacks *)

Lemma flat_map_fade_length cbs :
  Forall (fun cb => cb = fade_callback) cbs ->
  List.length (flat_map (fun cb => cb false) cbs) = List.length cbs.
Proof. induction 1 as [|cb cbs -> _ IH]; [reflexivity|]. cbn. rewrite IH. reflexivity. Qed.

(** One operation on [opacity] whose owed callbacks are the fade's:
    what it posts are completions, it posts one message per owed
    callback it runs, a fade assignment owes one callback more, and what
    it still owes are the fade's callbacks. *)
Lemma opacity_op_accounting op sv :
  Forall (fun cb => cb = fade_callback) (owed sv) ->
  let '(sv', msgs) := opacity_op op sv in
  completions msgs /\
  (List.length msgs + List.length (owed sv') =
    List.length (owed sv) + match op with AssignFade _ => 1 | _ => 0 end)%nat /\
  Forall (fun cb => cb = fade_callback) (owed sv').
Proof.
  unfold owed. intro Ho. destruct op as [now| |t]; cbn [opacity_op].
  - destruct (set_animation_shape fade_def now sv) as (v & next & msgs & -> & Hcase).
    cbn [sv_cancelled sv_animation].
    destruct Hcase as [[-> ->] | (a' & -> & Ha' & ->)]; cbn [cancelled_of]; [|rewrite Ha'];
      cbn; rewrite ?app_nil_r, ?length_app; cbn.
    + split; [apply (completions_fire true) | split; [lia | exact Ho]].
    + split; [constructor | split; [lia | apply Forall_app; split; [exact Ho | repeat constructor]]].
  - cbn. rewrite app_nil_r. split; [constructor | split; [lia | exact Ho]].
  - apply Forall_app in Ho as [Hc Hr]. unfold frame.
    pose proof (flat_map_fade_length _ Hc) as Hl. pose proof (completions_cancelled _ Hc) as Hm.
    destruct (sv_animation sv) as [a|]; cbn [cancelled_of] in Hr |- *.
    + destruct (step_anim_shape a t) as [[E1 E2] | (a' & E1 & E2 & E3)];
        destruct (step_anim a t) as [[v next] msgs]; cbn in *; subst next msgs.
      * destruct (def_callback (an_def a)) as [cb|]; [inversion Hr; subst|]; cbn;
          rewrite !length_app, ?app_nil_r, Hl; cbn.
        -- split; [apply completions_app; [exact Hm | apply (completions_fire true)] |
                   split; [lia | constructor]].
        -- split; [exact Hm | split; [lia | constructor]].
      * cbn [owed sv_cancelled sv_animation cancelled_of]. rewrite E2, app_nil_r.
        split; [exact Hm | split; [rewrite !length_app, Hl; lia | exact Hr]].
    + cbn. rewrite app_nil_r, Hl. split; [exact Hm | split; [lia | constructor]].
Qed.

Lemma opacity_ops_accounting ops sv :
  Forall (fun cb => cb = fade_callback) (owed sv) ->
  let '(sv', msgs) := opacity_ops ops sv in
  completions msgs /\
  (List.length msgs + List.length (owed sv') = List.length (owed sv) + count_fades ops)%nat /\
  Forall (fun cb => cb = fade_callback) (owed sv').
Proof.
  revert sv. induction ops as [|op ops IH]; intros sv Ho.
  - cbn. split; [constructor | split; [lia | exact Ho]].
  - cbn [opacity_ops]. pose proof (opacity_op_accounting op sv Ho) as H1.
    destruct (opacity_op op sv) as [sv1 m1]. destruct H1 as (Hm1 & Hl1 & Ho1).
    specialize (IH sv1 Ho1). destruct (opacity_ops ops sv1) as [sv2 m2].
    destruct IH as (Hm2 & Hl2 & Ho2).
    split; [apply completions_app; assumption | split; [|exact Ho2]].
    rewrite length_app. unfold count_fades in *. destruct op; cbn [filter List.length] in *; lia.
Qed.

(** ** Lemmas on runs *)

(** Starting the fade from a hidden overlay (value 0, nothing running):
    the fade runs from 0, started now, and nothing is posted. *)
Lemma fade_start t cbs :
  exists v, set_animation fade_def t (@mkSV JsMsg 0 None cbs) =
              (mkSV v (Some (mkAnim fade_def 0 t t)) (cbs ++ []), []) /\ v == 0.
Proof.
  unfold set_animation. cbn [sv_value sv_animation sv_cancelled cancelled_of].
  change (0 =? def_toValue fade_def) with false. cbn iota beta.
  unfold step_anim, onStart. cbn [an_timestamp]. rewrite (proj2 (Qltb_false_iff t t) (Qle_refl t)).
  unfold onFrame, an_config, an_toValue. cbn [an_def an_startTime an_startValue].
  change (duration (def_config fade_def)) with 200.
  assert (Hb : (200 <=? t - t) = false)
    by (apply not_true_iff_false; rewrite Qle_bool_iff; lra).
  rewrite Hb. eexists. split; [reflexivity|].
  assert (He : out ease ((t - t) / 200) == out ease 0)
    by (apply easing_proper; field).
  rewrite He, (easing_0 (f := out ease)). ring.
Qed.

(** Delivering every message in flight, all of them completions: the
    inbox empties, and [fadedIn] is set if any message was there. *)
Lemma deliver_all s :
  completions (inbox s) ->
  run s (repeat DeliverJs (List.length (inbox s))) =
  set_inbox [] (match inbox s with [] => s | _ => set_fadedIn true s end).
Proof.
  destruct s as [th i d v f op dr t ib r n]; cbn [inbox]. unfold run. revert f.
  induction ib as [|m ib IH]; intros f Hc; [reflexivity|].
  inversion Hc as [|? ? Hm Hrest]; subst m. cbn [List.length repeat fold_left].
  unfold step at 2. cbn [inbox]. unfold st_exec, deliver, setFadedIn, st_modify.
  cbn [snd]. unfold set_inbox, set_fadedIn. cbn [theme index deps visible fadedIn opacity
    drag now inbox tap closes]. rewrite IH by exact Hrest. destruct ib; reflexivity.
Qed.

(** The same when at least one message is in flight: [fadedIn] ends up
    set. *)
Lemma deliver_all_nonempty s :
  completions (inbox s) -> inbox s <> [] ->
  run s (repeat DeliverJs (List.length (inbox s))) = set_inbox [] (set_fadedIn true s).
Proof.
  intros Hc Hne. rewrite (deliver_all s Hc). destruct (inbox s); [contradiction | reflexivity].
Qed.

(** The callbacks a shared value of a reachable state will still run on
    cancellation, together with those of its running animation, are all
    the fade's. *)
Lemma cancelled_after_set_value s :
  Inv s ->
  Forall (fun cb => cb = fade_callback)
    (sv_cancelled (opacity s) ++ cancelled_of (sv_animation (opacity s))).
Proof.
  intros Hinv. destruct (inv_opacity _ Hinv) as [_ [Hdef Hcb]].
  apply Forall_app. split; [exact Hcb | apply cancelled_fade_ok, Hdef].
Qed.

(** Touches on a mounted overlay: the recognizer moves on, and each
    [END] state it emits is one call of [closeGridView]. *)
Lemma run_touches s ts :
  visible s = true ->
  run s (map Touch ts) =
  let '(r, evs) := on_touches overlay_tap_config (tap s) ts in
  set_closes (closes s + List.length (filter is_end evs)) (set_tap r s).
Proof.
  revert s. induction ts as [|t ts IH]; intros s Hv.
  - cbn. destruct s. unfold_sys. rewrite Nat.add_0_r. reflexivity.
  - cbn [map run fold_left on_touches].
    change (fold_left step (map Touch ts)) with (fun s0 => run s0 (map Touch ts)). cbn beta.
    cbn [step]. rewrite Hv. destruct (on_touch overlay_tap_config (tap s) t) as [r1 e1].
    rewrite dispatch_closes, IH by (unfold_sys; exact Hv). unfold_sys.
    destruct (on_touches overlay_tap_config r1 ts) as [r2 e2].
    rewrite filter_app, length_app. unfold_sys. f_equal. lia.
Qed.

(** Touches on a hidden overlay reach no handler. *)
Lemma run_touches_hidden s ts : visible s = false -> run s (map Touch ts) = s.
Proof.
  revert s. induction ts as [|t ts IH]; intros s Hv; [reflexivity|].
  cbn [map run fold_left]. change (fold_left step (map Touch ts)) with
    (fun s0 => run s0 (map Touch ts)). cbn beta. cbn [step]. rewrite Hv. apply IH, Hv.
Qed.

(** ** Lockstep with the spec's machine *)

Lemma stay_step s s' : phase s' = phase s -> spec_step (phase s) LStay (phase s').
Proof. intro E. rewrite E. constructor. Qed.

Lemma strict_commit s i :
  StrictInv s -> no_stale s (Rerender i) ->
  spec_step (phase s) (event_label s (Rerender i)) (phase (commit i s)) /\ StrictInv (commit i s).
Proof.
  intros [Hinv Hh] Hns. pose proof (inv_commit s i Hinv) as Hinv'.
  pose proof (inv_visible _ Hinv) as Hvis. unfold event_label.
  destruct (Z.eq_dec (index s) i) as [<-|Hne].
  { rewrite commit_same by exact Hinv. rewrite <- Hvis.
    split; [destruct (visible s); constructor | split; assumption]. }
  destruct (Z.ltb_spec 0 i) as [Hi|Hi]; rewrite <- Hvis.
  - rewrite commit_open in * by (apply Hinv || assumption).
    split; [|split; [exact Hinv' | discriminate]].
    unfold phase. cbn [visible fadedIn]. destruct (visible s) eqn:Hv.
    + constructor.
    + destruct (Hh eq_refl) as [Hf _]. rewrite Hf. constructor.
  - rewrite commit_close in * by (apply Hinv || assumption).
    assert (Hq : quiescent s)
      by (destruct (visible s) eqn:Hv; [apply Hns; assumption | apply Hh; reflexivity]).
    destruct Hq as (Ha & Hc & Hib). split.
    + unfold phase. cbn [visible].
      destruct (visible s); [destruct (fadedIn s) |]; constructor.
    + split; [exact Hinv'|]. intros _. split; [reflexivity|]. unfold quiescent.
      cbn [opacity inbox]. unfold set_value. cbn. rewrite Ha, Hc. repeat split; assumption.
Qed.

Lemma strict_step s e :
  StrictInv s -> no_stale s e ->
  spec_step (phase s) (event_label s e) (phase (step s e)) /\ StrictInv (step s e).
Proof.
  intros HS Hns. pose proof (inv_step s e (proj1 HS)) as Hinv'.
  destruct HS as [Hinv Hh]. destruct e as [i|q|t| |t].
  - apply strict_commit; [split|]; assumption.
  - split; [apply stay_step; reflexivity | split; [exact Hinv' | exact Hh]].
  - cbn [step event_label] in *. case_q; [|split; [apply stay_step; reflexivity | split; assumption]].
    destruct (frame t (opacity s)) as [sv msgs] eqn:Ef.
    split; [apply stay_step; reflexivity | split; [exact Hinv'|]].
    unfold_sys. intro Hv. destruct (Hh Hv) as (Hf & Ha & Hc & Hib). split; [exact Hf|].
    rewrite frame_idle, Hc in Ef by exact Ha. injection Ef as <- <-.
    unfold quiescent. cbn. rewrite Hib. repeat split.
  - cbn [step event_label] in *. destruct (inbox s) as [|m rest] eqn:Hib.
    + split; [apply stay_step; reflexivity | split; assumption].
    + assert (Hv : visible s = true)
        by (destruct (visible s) eqn:Hv; [reflexivity | destruct (Hh eq_refl) as (_ & _ & _ & E);
            congruence]).
      pose proof (inv_inbox _ Hinv) as Hc. rewrite Hib in Hc.
      inversion Hc as [|? ? Hm _]; subst m.
      split; [|split; [exact Hinv' | unfold st_exec; cbn; congruence]].
      unfold st_exec. cbn. unfold phase. cbn. rewrite Hv.
      destruct (fadedIn s); constructor.
  - cbn [step event_label] in *. destruct (visible s) eqn:Hv.
    + destruct (on_touch overlay_tap_config (tap s) t) as [r evs].
      rewrite dispatch_closes in *. split.
      * apply stay_step. unfold phase. unfold_sys. reflexivity.
      * split; [exact Hinv' | unfold_sys; congruence].
    + split; [apply stay_step; reflexivity | split; [exact Hinv' | rewrite Hv; exact Hh]].
Qed.

Lemma strict_mount th drag0 t0 i0 :
  StrictInv (mount th drag0 t0 i0) /\ spec_step Hidden (mount_label i0) (phase (mount th drag0 t0 i0)).
Proof.
  unfold mount_label.
  split; [split; [apply inv_mount|] |]; destruct (Z.ltb_spec 0 i0) as [Hi|Hi].
  - rewrite mount_open by exact Hi. discriminate.
  - rewrite mount_close by exact Hi. intros _. repeat split.
  - rewrite mount_open by exact Hi. constructor.
  - rewrite mount_close by exact Hi. constructor.
Qed.

Lemma strict_follows s evs : StrictInv s -> no_stale_run s evs -> follows s evs.
Proof.
  revert s. induction evs as [|e evs IH]; intros s HS Hns; [exact I|].
  destruct Hns as [He Hrest]. destruct (strict_step s e HS He) as [Hl HS'].
  split; [exact Hl | apply IH; assumption].
Qed.

(** ** Theorems *)

(** C1: In every reachable state the overlay is visible exactly when the
    current bottom-sheet index is positive, and it renders nothing
    exactly when the index is at most 0. *)
Theorem visibility_follows_index s :
  reachable s ->
  visible s = (0 <? index s)%Z /\ (render s = None <-> (index s <= 0)%Z).
Proof.
  intro H. pose proof (inv_visible _ (reachable_inv s H)) as Hv. split; [exact Hv|].
  unfold render. rewrite Hv. destruct (Z.ltb_spec 0 (index s)); cbn; split;
    (discriminate || lia || reflexivity).
Qed.



(** C14: Re-rendering with the same index changes nothing: the effect does
    not run again, so the fade does not restart and no callback is
    posted. *)
Theorem rerender_same_index_noop s n :
  reachable s -> run s (repeat (Rerender (index s)) n) = s.
Proof.
  intro H. pose proof (reachable_inv s H) as Hinv. unfold run.
  induction n as [|n IH]; [reflexivity|]. cbn [repeat fold_left step].
  rewrite commit_same by exact Hinv. exact IH.
Qed.

(** C5: Moving the index from positive to at most 0 hides the overlay at
    once, whatever the fade was doing.  The overlay renders nothing, the
    opacity is 0 with no animation running, and [fadedIn] is false. *)
Theorem close_resets s i :
  reachable s -> (0 < index s)%Z -> (i <= 0)%Z ->
  let s' := step s (Rerender i) in
  visible s' = false /\ fadedIn s' = false /\ sv_value (opacity s') = 0 /\
  sv_animation (opacity s') = None /\ render s' = None.
Proof.
  intros H Hpos Hi. pose proof (reachable_inv s H) as Hinv. cbn [step].
  rewrite commit_close by (apply Hinv || lia || exact Hi). repeat split.
Qed.

(** C9: Moving the index from at most 0 to positive shows the overlay
    and starts the fade.  The fade is a timing animation from opacity 0
    to 1, started now, with duration 200 and the curve
    [Easing.out(Easing.ease)].  The opacity is still 0 and nothing is
    posted yet.  [fadedIn] keeps whatever value it had. *)
Theorem open_starts_fade s i :
  reachable s -> (index s <= 0)%Z -> (0 < i)%Z ->
  let s' := step s (Rerender i) in
  visible s' = true /\ sv_animation (opacity s') = Some (mkAnim fade_def 0 (now s) (now s)) /\
  sv_value (opacity s') == 0 /\ inbox s' = inbox s /\ fadedIn s' = fadedIn s.
Proof.
  intros H Hidx Hi. pose proof (reachable_inv s H) as Hinv.
  assert (Hvis : visible s = false) by (rewrite (inv_visible _ Hinv); apply Z.ltb_ge, Hidx).
  destruct (inv_hidden _ Hinv Hvis) as (Hval & Hanim & _). cbn [step].
  rewrite commit_open by (apply Hinv || lia || exact Hi). cbn [visible opacity inbox fadedIn].
  destruct (opacity s) as [v0 a0 cbs]; cbn in Hval, Hanim; subst v0 a0.
  destruct (fade_start (now s) cbs) as (v & E & Hv). rewrite E. cbn.
  repeat split; [exact Hv | apply app_nil_r].
Qed.

(** The frame that completes a running fade: the value becomes 1, the
    animation stops, and the completion is posted after the callbacks of
    cancelled fades. *)
Lemma frame_completes_fade sv a t :
  sv_animation sv = Some a -> an_def a = fade_def -> an_timestamp a <= t ->
  an_startTime a + 200 <= t ->
  frame t sv = (mkSV 1 None [],
                flat_map (fun cb => cb false) (sv_cancelled sv) ++ [SetFadedIn true]).
Proof.
  intros Ea Ha Hts Hd. unfold frame. rewrite Ea. unfold step_anim.
  rewrite (proj2 (Qltb_false_iff _ _) Hts). unfold onFrame, an_config, an_toValue. rewrite Ha.
  change (duration (def_config fade_def)) with 200.
  rewrite (proj2 (Qle_bool_iff _ _)) by lra. reflexivity.
Qed.

(** C10: Once the fade has run for its 200 time units, one frame and the
    delivery of the messages in flight complete it.  The opacity is
    exactly 1 with no animation left, [fadedIn] holds, the overlay is
    still shown, and no message is left.  From then on the displayed
    opacity is the drag value, whatever the bottom sheet sets it to. *)
Theorem fade_completes_then_tracks_drag s a t :
  reachable s -> visible s = true -> sv_animation (opacity s) = Some a ->
  an_startTime a + 200 <= t -> now s <= t ->
  let s1 := step s (Frame t) in
  let s2 := run s1 (repeat DeliverJs (List.length (inbox s1))) in
  sv_value (opacity s2) = 1 /\ sv_animation (opacity s2) = None /\ fadedIn s2 = true /\
  visible s2 = true /\ inbox s2 = [] /\ (forall q, showOverlayStyle (step s2 (Drag q)) = q).
Proof.
  intros H Hv Ea Hd Ht. pose proof (reachable_inv s H) as Hinv.
  destruct (inv_opacity _ Hinv) as [[_ Hok] [Hdef Hcb]].
  destruct (Hok a Ea) as (_ & _ & _ & _ & Hts).
  cbn [step]. rewrite (proj2 (Qle_bool_iff _ _) Ht).
  rewrite (frame_completes_fade _ a t Ea (Hdef a Ea)) by lra.
  set (s1 := set_inbox _ _).
  assert (Hc1 : completions (inbox s1)).
  { unfold s1. unfold_sys. apply completions_app; [apply Hinv|].
    apply completions_app; [apply completions_cancelled, Hcb | apply (completions_fire true)]. }
  assert (Hnil : inbox s1 <> []) by (unfold s1; unfold_sys; list_not_nil).
  rewrite (deliver_all_nonempty s1 Hc1 Hnil).
  cbn; repeat split; (assumption || reflexivity || (intro; reflexivity)).
Qed.

(** C15: The fade follows its curve.  After an open from a hidden overlay
    at clock [now], a frame at any time [t] before [now + 200] sets the
    opacity to [Easing.out(Easing.ease)((t - now) / 200)], and the fade
    keeps running. *)
Theorem fade_frame_value s i t :
  reachable s -> (index s <= 0)%Z -> (0 < i)%Z -> now s <= t -> t < now s + 200 ->
  let s' := run s [Rerender i; Frame t] in
  sv_value (opacity s') == fade_easing ((t - now s) / 200) /\
  sv_animation (opacity s') = Some (mkAnim fade_def 0 (now s) t).
Proof.
  intros H Hidx Hi Ht Hend. pose proof (reachable_inv s H) as Hinv.
  assert (Hvis : visible s = false) by (rewrite (inv_visible _ Hinv); apply Z.ltb_ge, Hidx).
  destruct (inv_hidden _ Hinv Hvis) as (Hval & Hanim & _).
  cbn [run fold_left step]. rewrite commit_open by (apply Hinv || lia || exact Hi).
  cbn [now opacity]. rewrite (proj2 (Qle_bool_iff _ _) Ht).
  destruct (opacity s) as [v0 a0 cbs]; cbn in Hval, Hanim; subst v0 a0.
  destruct (fade_start (now s) cbs) as (v & E & _). rewrite E. cbn [fst].
  rewrite (frame_running (mkSV v (Some (mkAnim fade_def 0 (now s) (now s))) (cbs ++ []))
             (mkAnim fade_def 0 (now s) (now s)) t eq_refl Ht)
    by (change (an_startTime _ + duration _) with (now s + 200); exact Hend).
  cbn. split; [|reflexivity]. unfold fade_easing. ring.
Qed.

(** C16: In every reachable state the displayed opacity lies in the unit
    interval whenever the drag value does. *)
Theorem opacity_in_unit_interval s :
  reachable s -> in01 (drag s) -> in01 (showOverlayStyle s).
Proof.
  intros H Hd. apply (showOverlayStyle_in01 s (reachable_inv s H) Hd).
Qed.

(** C24: Every message in flight to the JS thread, and every message that
    a cancelled fade will still post, is [setFadedIn(true)].  No message
    ever resets [fadedIn]. *)
Theorem messages_in_flight_set_fadedIn s :
  reachable s ->
  Forall (fun m => m = SetFadedIn true) (inbox s) /\
  Forall (fun cb => forall finished, cb finished = [SetFadedIn true]) (sv_cancelled (opacity s)).
Proof.
  intro H. destruct (reachable_inv s H) as [_ _ [_ [_ Hcb]] Hin _]. split; [exact Hin|].
  eapply Forall_impl; [|exact Hcb]. intros cb -> b. reflexivity.
Qed.

(** C17: On a shown overlay whose tap handler is idle, a touch that goes
    down, moves only within 16 units of where it went down in each axis,
    and lifts calls [closeGridView] exactly once and changes nothing
    else. *)
Theorem tap_closes_once s x y ps :
  visible s = true -> tap s = Gesture.initial ->
  Forall (fun '(x', y') => exceeds overlay_tap_config (mkRec BEGAN x y) x' y' = false) ps ->
  run s (map Touch (TouchDown x y :: moves ps ++ [TouchUp])) = set_closes (S (closes s)) s.
Proof.
  intros Hv Ht Hin. rewrite run_touches, Ht, tap_within_tolerance by assumption. cbn.
  destruct s; cbn in Ht; unfold_sys; subst. f_equal. lia.
Qed.

(** C18: On a shown overlay whose tap handler is idle, a touch that moves
    more than 16 units from where it went down in either axis calls
    [closeGridView] for none of what follows, up to the next touch
    down, and leaves the system as it was. *)
Theorem drag_does_not_close s x y ps rest :
  visible s = true -> tap s = Gesture.initial ->
  Exists (fun '(x', y') => exceeds overlay_tap_config (mkRec BEGAN x y) x' y' = true) ps ->
  Forall (fun t => match t with TouchDown _ _ => False | _ => True end) rest ->
  run s (map Touch (TouchDown x y :: moves ps ++ rest)) = s.
Proof.
  intros Hv Ht Hex Hrest. rewrite run_touches, Ht, drag_never_ends by assumption. cbn.
  destruct s; cbn in Ht; unfold_sys; subst. f_equal. lia.
Qed.

(** C23: While the index is at most 0 the overlay has no tap handler:
    touches change nothing and [closeGridView] is never called. *)
Theorem hidden_ignores_touches s ts :
  reachable s -> (index s <= 0)%Z -> run s (map Touch ts) = s.
Proof.
  intros H Hi. apply run_touches_hidden.
  rewrite (inv_visible _ (reachable_inv s H)). apply Z.ltb_ge, Hi.
Qed.


(** C19: What the tap handler reports is well formed.  On a shown
    overlay, any sequence of touches reaches [tapEvent] as a stream of
    state changes, each from the handler's current state to another,
    with valid state codes and a reset after each final state, ending
    in the recognizer's new state.  [closeGridView] is called once for
    each [END] in that stream and nothing else changes. *)
Theorem handler_events_well_formed s ts :
  reachable s -> visible s = true ->
  let '(r, evs) := on_touches overlay_tap_config (tap s) ts in
  rec_wf r /\ chain_from (rec_state (tap s)) evs = Some (rec_state r) /\
  run s (map Touch ts) = set_closes (closes s + List.length (filter is_end evs)) (set_tap r s).
Proof.
  intros H Hv. rewrite (run_touches s ts Hv).
  destruct (on_touches_wf overlay_tap_config (tap s) ts (reachable_tap_wf s H)) as [Hr Hc].
  destruct (on_touches overlay_tap_config (tap s) ts) as [r evs].
  split; [exact Hr | split; [exact Hc | reflexivity]].
Qed.

(** C21: The theme lookup throws exactly when the context's value, its
    [theme], [theme.colors], [theme.imageGallery] or
    [theme.imageGallery.grid] is [undefined] or [null]; the component
    has no other failure.  Missing leaves are not errors: they come out
    as [undefined].  On a context that holds a theme, the lookup
    succeeds with the two values the rest of the model reads through
    [theme_values]. *)
Theorem theme_lookup_throws ctx :
  let th := prop ctx "theme" in
  let colors := prop th "colors" in
  let ig := prop th "imageGallery" in
  let grid := prop ig "grid" in
  let fails := nullish ctx || nullish th || nullish colors || nullish ig || nullish grid in
  (fails = true -> exists key, useTheme_destructure ctx = Failure (CannotRead key)) /\
  (fails = false ->
     useTheme_destructure ctx = Success (prop colors "overlay", prop grid "overlay")) /\
  (forall t, useTheme_destructure (theme_to_js t) =
     Success (JStr (fst (theme_values t)), style_to_js (snd (theme_values t)))).
Proof.
  cbv zeta. split; [|split; [|intro t; reflexivity]]; unfold useTheme_destructure, get;
    repeat (match goal with |- context [nullish ?v] => destruct (nullish v); cbn [res_bind] end);
    cbn; intro H; (discriminate || eauto || reflexivity).
Qed.

(** C13: The frame React commits before the effect runs is stale.  A
    re-render with a new index is the commit of the element for the new
    props, then the passive effect.  The first commit still shows the
    overlay for an index that dropped to at most 0, and still shows
    nothing for an index that became positive; only the effect's
    re-render brings the element in line with the index. *)
Theorem frame_before_effect_is_stale s i :
  reachable s ->
  step s (Rerender i) = flush_effects (render_commit i s) /\
  render (render_commit i s) = render s /\
  ((0 < index s)%Z -> (i <= 0)%Z ->
     render (render_commit i s) <> None /\ render (step s (Rerender i)) = None) /\
  ((index s <= 0)%Z -> (0 < i)%Z ->
     render (render_commit i s) = None /\ render (step s (Rerender i)) <> None).
Proof.
  intro H. pose proof (reachable_inv s H) as Hinv. cbn [step].
  rewrite render_render_commit. split; [apply commit_two_phases, Hinv | split; [reflexivity|]].
  unfold render at 1 3. rewrite (inv_visible _ Hinv).
  split; intros Hs Hi.
  - rewrite (proj2 (Z.ltb_lt _ _) Hs), commit_close by (apply Hinv || lia).
    split; [discriminate | reflexivity].
  - rewrite (proj2 (Z.ltb_ge _ _) Hs), commit_open by (apply Hinv || lia).
    split; [reflexivity | discriminate].
Qed.


(** C8: Every fade assigned to [opacity] posts exactly one
    [setFadedIn(true)], at once, at its completion, or at the first
    frame after its cancellation.  From any reachable state, along any
    sequence of the component's writes to [opacity] and of frames,
    every message posted is [setFadedIn(true)], and the messages posted
    plus the callbacks still owed are the callbacks owed at the start
    plus the fades assigned: no callback is lost and none runs twice. *)
Theorem fade_posts_once s ops :
  reachable s ->
  let '(sv', msgs) := opacity_ops ops (opacity s) in
  Forall (fun m => m = SetFadedIn true) msgs /\
  (List.length msgs + List.length (owed sv') =
     List.length (owed (opacity s)) + count_fades ops)%nat.
Proof.
  intro H. pose proof (opacity_ops_accounting ops (opacity s)
    (cancelled_after_set_value s (reachable_inv s H))) as Hacc.
  destruct (opacity_ops ops (opacity s)) as [sv' msgs].
  destruct Hacc as (Hm & Hl & _). split; assumption.
Qed.

(** C22: The style the rendered view ends up with.  Whatever the theme
    context holds, once its lookup succeeds and the overlay is shown,
    the flattened style takes its opacity from the animated style, even
    if the theme's override sets one.  Its background colour is the
    override's [backgroundColor] if the override has that property, and
    [theme.colors.overlay] otherwise.  When that value is missing the
    background is [undefined]: the overlay loses its colour without any
    error. *)
Theorem rendered_style_js ctx s c o :
  useTheme_destructure ctx = Success (c, o) -> visible s = true ->
  exists v, render_js ctx s = Success (Some v) /\
    flatten_js_get "opacity" (js_style v) = Some (JNum (showOverlayStyle s)) /\
    flatten_js_get "backgroundColor" (js_style v) =
      Some (match obj_get o "backgroundColor" with Some b => b | None => c end).
Proof.
  intros E Hv. unfold render_js. rewrite E. cbn [res_bind]. rewrite Hv. cbn [negb].
  eexists. split; [reflexivity|]. cbn [js_style].
  change [style_to_js absoluteFillObject; JObj [("backgroundColor", c)]; o;
          JObj [("opacity", JNum (showOverlayStyle s))]]
    with (([style_to_js absoluteFillObject; JObj [("backgroundColor", c)]] ++ [o]) ++
          [JObj [("opacity", JNum (showOverlayStyle s))]]).
  rewrite !flatten_js_get_snoc. split; [reflexivity|].
  destruct (obj_get o "backgroundColor"); reflexivity.
Qed.


(** ** Witnesses *)


(** A tap with a small move, then a drag, on [witness_open]. *)
Lemma handler_events_well_formed_witness :
  reachable witness_open /\ visible witness_open = true /\
  (let '(r, evs) := on_touches overlay_tap_config (tap witness_open)
        [TouchDown 100 200; TouchMove 110 190; TouchUp; TouchDown 0 0; TouchMove 40 0] in
   rec_wf r /\ chain_from (rec_state (tap witness_open)) evs = Some (rec_state r) /\
   run witness_open (map Touch [TouchDown 100 200; TouchMove 110 190; TouchUp;
                                TouchDown 0 0; TouchMove 40 0]) =
     set_closes (closes witness_open + List.length (filter is_end evs)) (set_tap r witness_open)).
Proof.
  assert (Hv : visible witness_open = true) by (vm_compute; reflexivity).
  split; [apply reachable_mount | split; [exact Hv |]].
  apply (handler_events_well_formed _ _ (reachable_mount _ _ _ _) Hv).
Defined.

(** A context whose [theme.colors] is [null] throws; one whose leaves are
    missing gives [undefined] for both; [witness_theme]'s context gives
    its values. *)
Lemma theme_lookup_throws_witness :
  (exists key, useTheme_destructure (JObj [("theme", JObj [("colors", JNull)])]) =
                 Failure (CannotRead key)) /\
  useTheme_destructure
    (JObj [("theme", JObj [("colors", JObj []); ("imageGallery", JObj [("grid", JObj [])])])]) =
    Success (JUndefined, JUndefined) /\
  useTheme_destructure (theme_to_js witness_theme) = Success (JStr "rgba(0, 0, 0, 0.8)", JObj []).
Proof.
  split; [exact (proj1 (theme_lookup_throws (JObj [("theme", JObj [("colors", JNull)])])) eq_refl)|].
  split; [exact (proj1 (proj2 (theme_lookup_throws
    (JObj [("theme", JObj [("colors", JObj []); ("imageGallery", JObj [("grid", JObj [])])])])))
    eq_refl)|].
  exact (proj2 (proj2 (theme_lookup_throws JUndefined)) witness_theme).
Defined.

(** [witness_open] receives index 0, and [witness_closed] index 1. *)
Lemma frame_before_effect_is_stale_witness :
  reachable witness_open /\ (0 < index witness_open)%Z /\ (0 <= 0)%Z /\
  render (render_commit 0 witness_open) <> None /\
  render (step witness_open (Rerender 0)) = None /\
  reachable witness_closed /\ (index witness_closed <= 0)%Z /\ (0 < 1)%Z /\
  render (render_commit 1 witness_closed) = None /\
  render (step witness_closed (Rerender 1)) <> None.
Proof.
  assert (Ho : (0 < index witness_open)%Z) by reflexivity.
  assert (Hc : (index witness_closed <= 0)%Z) by discriminate.
  destruct (frame_before_effect_is_stale witness_open 0 (reachable_mount _ _ _ _))
    as (_ & _ & Hopen & _).
  destruct (frame_before_effect_is_stale witness_closed 1 (reachable_mount _ _ _ _))
    as (_ & _ & _ & Hclose).
  destruct (Hopen Ho ltac:(lia)) as [H1 H2]. destruct (Hclose Hc ltac:(lia)) as [H3 H4].
  split; [apply reachable_mount | split; [exact Ho | split; [lia | split; [exact H1 |
    split; [exact H2 | split; [apply reachable_mount | split; [exact Hc | split; [lia |
    split; [exact H3 | exact H4]]]]]]]]].
Defined.


(** [witness_open]'s fade is cut by a reset, a new fade is assigned and
    runs to its end. *)
Lemma fade_posts_once_witness :
  reachable witness_open /\
  (let '(sv', msgs) := opacity_ops [FrameAt 1016; AssignZero; AssignFade 1020; FrameAt 1030;
                                    FrameAt 1300] (opacity witness_open) in
   Forall (fun m => m = SetFadedIn true) msgs /\
   (List.length msgs + List.length (owed sv') =
      List.length (owed (opacity witness_open)) +
      count_fades [FrameAt 1016; AssignZero; AssignFade 1020; FrameAt 1030; FrameAt 1300])%nat).
Proof.
  split; [apply reachable_mount | apply (fade_posts_once _ _ (reachable_mount _ _ _ _))].
Defined.

(** A context whose [theme.colors] and [theme.imageGallery.grid] have
    no [overlay]: both values are [undefined], and the shown
    [witness_open] renders with an [undefined] background. *)
Lemma rendered_style_js_witness :
  useTheme_destructure
    (JObj [("theme", JObj [("colors", JObj []); ("imageGallery", JObj [("grid", JObj [])])])]) =
    Success (JUndefined, JUndefined) /\
  visible witness_open = true /\
  exists v, render_js
    (JObj [("theme", JObj [("colors", JObj []); ("imageGallery", JObj [("grid", JObj [])])])])
    witness_open = Success (Some v) /\
    flatten_js_get "opacity" (js_style v) = Some (JNum (showOverlayStyle witness_open)) /\
    flatten_js_get "backgroundColor" (js_style v) =
      Some (match obj_get JUndefined "backgroundColor" with Some b => b | None => JUndefined end).
Proof.
  assert (E : useTheme_destructure
    (JObj [("theme", JObj [("colors", JObj []); ("imageGallery", JObj [("grid", JObj [])])])]) =
    Success (JUndefined, JUndefined)) by reflexivity.
  assert (Hv : visible witness_open = true) by (vm_compute; reflexivity).
  split; [exact E | split; [exact Hv | apply (rendered_style_js _ _ _ _ E Hv)]].
Defined.

Lemma visibility_follows_index_witness :
  reachable witness_open /\
  visible witness_open = (0 <? index witness_open)%Z /\
  (render witness_open = None <-> (index witness_open <= 0)%Z).
Proof. split; [apply reachable_mount | apply visibility_follows_index, reachable_mount]. Defined.



Lemma rerender_same_index_noop_witness :
  reachable witness_open /\ run witness_open (repeat (Rerender (index witness_open)) 3) = witness_open.
Proof. split; [apply reachable_mount | apply rerender_same_index_noop, reachable_mount]. Defined.

Lemma close_resets_witness :
  reachable witness_open /\ (0 < index witness_open)%Z /\ (0 <= 0)%Z /\
  (let s' := step witness_open (Rerender 0) in
   visible s' = false /\ fadedIn s' = false /\ sv_value (opacity s') = 0 /\
   sv_animation (opacity s') = None /\ render s' = None).
Proof.
  assert (Hi : (0 < index witness_open)%Z) by (vm_compute; reflexivity).
  split; [apply reachable_mount | split; [exact Hi | split; [lia|]]].
  apply close_resets; [apply reachable_mount | exact Hi | lia].
Defined.

Lemma open_starts_fade_witness :
  reachable witness_closed /\ (index witness_closed <= 0)%Z /\ (0 < 1)%Z /\
  (let s' := step witness_closed (Rerender 1) in
   visible s' = true /\
   sv_animation (opacity s') = Some (mkAnim fade_def 0 (now witness_closed) (now witness_closed)) /\
   sv_value (opacity s') == 0 /\ inbox s' = inbox witness_closed /\
   fadedIn s' = fadedIn witness_closed).
Proof.
  assert (Hi : (index witness_closed <= 0)%Z) by (vm_compute; discriminate).
  split; [apply reachable_mount | split; [exact Hi | split; [lia|]]].
  apply open_starts_fade; [apply reachable_mount | exact Hi | lia].
Defined.

Lemma fade_completes_then_tracks_drag_witness :
  reachable witness_open /\ visible witness_open = true /\
  sv_animation (opacity witness_open) = Some (mkAnim fade_def 0 1000 1000) /\
  an_startTime (mkAnim fade_def 0 1000 1000) + 200 <= 1200 /\ now witness_open <= 1200 /\
  (let s1 := step witness_open (Frame 1200) in
   let s2 := run s1 (repeat DeliverJs (List.length (inbox s1))) in
   sv_value (opacity s2) = 1 /\ sv_animation (opacity s2) = None /\ fadedIn s2 = true /\
   visible s2 = true /\ inbox s2 = [] /\ (forall q, showOverlayStyle (step s2 (Drag q)) = q)).
Proof.
  assert (Hv : visible witness_open = true) by (vm_compute; reflexivity).
  assert (Ha : sv_animation (opacity witness_open) = Some (mkAnim fade_def 0 1000 1000))
    by reflexivity.
  assert (Hd : an_startTime (mkAnim fade_def 0 1000 1000) + 200 <= 1200)
    by (vm_compute; discriminate).
  assert (Ht : now witness_open <= 1200) by (vm_compute; discriminate).
  split; [apply reachable_mount | split; [exact Hv | split; [exact Ha | split; [exact Hd |
    split; [exact Ht |]]]]].
  apply (fade_completes_then_tracks_drag _ _ _ (reachable_mount _ _ _ _) Hv Ha Hd Ht).
Defined.

Lemma opacity_in_unit_interval_witness :
  reachable witness_open /\ in01 (drag witness_open) /\ in01 (showOverlayStyle witness_open).
Proof.
  assert (Hd : in01 (drag witness_open)) by (unfold in01; vm_compute; split; discriminate).
  split; [apply reachable_mount | split; [exact Hd |]].
  apply opacity_in_unit_interval; [apply reachable_mount | exact Hd].
Defined.

Lemma messages_in_flight_set_fadedIn_witness :
  reachable witness_inflight /\
  List.length (inbox witness_inflight) = 1%nat /\
  List.length (sv_cancelled (opacity witness_inflight)) = 1%nat /\
  Forall (fun m => m = SetFadedIn true) (inbox witness_inflight) /\
  Forall (fun cb => forall finished, cb finished = [SetFadedIn true])
    (sv_cancelled (opacity witness_inflight)).
Proof.
  assert (H : reachable witness_inflight) by (apply reachable_run, reachable_mount).
  split; [exact H | split; [reflexivity | split; [reflexivity |]]].
  apply messages_in_flight_set_fadedIn, H.
Defined.

Lemma tap_closes_once_witness :
  visible witness_open = true /\ tap witness_open = Gesture.initial /\
  Forall (fun '(x', y') => exceeds overlay_tap_config (mkRec BEGAN 100 200) x' y' = false)
    [(110, 190); (84, 216)] /\
  run witness_open (map Touch (TouchDown 100 200 :: moves [(110, 190); (84, 216)] ++ [TouchUp]))
    = set_closes 1 witness_open.
Proof.
  assert (Hv : visible witness_open = true) by (vm_compute; reflexivity).
  assert (Ht : tap witness_open = Gesture.initial) by (vm_compute; reflexivity).
  assert (Hin : Forall (fun '(x', y') => exceeds overlay_tap_config (mkRec BEGAN 100 200) x' y' = false)
    [(110, 190); (84, 216)]) by (repeat constructor).
  split; [exact Hv | split; [exact Ht | split; [exact Hin |]]].
  apply (tap_closes_once witness_open 100 200 _ Hv Ht Hin).
Defined.

Lemma drag_does_not_close_witness :
  visible witness_open = true /\ tap witness_open = Gesture.initial /\
  Exists (fun '(x', y') => exceeds overlay_tap_config (mkRec BEGAN 100 200) x' y' = true)
    [(100, 217)] /\
  Forall (fun t => match t with TouchDown _ _ => False | _ => True end) [TouchUp] /\
  run witness_open (map Touch (TouchDown 100 200 :: moves [(100, 217)] ++ [TouchUp])) = witness_open.
Proof.
  assert (Hv : visible witness_open = true) by (vm_compute; reflexivity).
  assert (Ht : tap witness_open = Gesture.initial) by (vm_compute; reflexivity).
  assert (Hex : Exists (fun '(x', y') => exceeds overlay_tap_config (mkRec BEGAN 100 200) x' y' = true)
    [(100, 217)]) by (apply Exists_cons_hd; reflexivity).
  assert (Hr : Forall (fun t => match t with TouchDown _ _ => False | _ => True end) [TouchUp])
    by (repeat constructor).
  split; [exact Hv | split; [exact Ht | split; [exact Hex | split; [exact Hr |]]]].
  apply (drag_does_not_close witness_open 100 200 _ _ Hv Ht Hex Hr).
Defined.

Lemma hidden_ignores_touches_witness :
  reachable witness_closed /\ (index witness_closed <= 0)%Z /\
  run witness_closed (map Touch [TouchDown 5 5; TouchUp]) = witness_closed.
Proof.
  assert (Hi : (index witness_closed <= 0)%Z) by (vm_compute; discriminate).
  split; [apply reachable_mount | split; [exact Hi |]].
  apply hidden_ignores_touches; [apply reachable_mount | exact Hi].
Defined.

Lemma fade_frame_value_witness :
  reachable witness_closed /\ (index witness_closed <= 0)%Z /\ (0 < 1)%Z /\
  now witness_closed <= 1100 /\ 1100 < now witness_closed + 200 /\
  (let s' := run witness_closed [Rerender 1; Frame 1100] in
   sv_value (opacity s') == fade_easing ((1100 - now witness_closed) / 200) /\
   sv_animation (opacity s') = Some (mkAnim fade_def 0 (now witness_closed) 1100)).
Proof.
  assert (Hi : (index witness_closed <= 0)%Z) by (vm_compute; discriminate).
  assert (Ht : now witness_closed <= 1100) by (vm_compute; discriminate).
  assert (He : 1100 < now witness_closed + 200) by (vm_compute; reflexivity).
  split; [apply reachable_mount | split; [exact Hi | split; [lia | split; [exact Ht |
    split; [exact He |]]]]].
  apply fade_frame_value; [apply reachable_mount | exact Hi | lia | exact Ht | exact He].
Defined.

End Overlay.
