(* ===== verification/OverlaySpec.v ===== *)
(** * The overlay's contract, and where the component departs from it

    Section 4 of the spec describes the overlay as a state machine over
    three phases: [Hidden], [FadingIn] and [Shown].
    - [Hidden] goes to [FadingIn] when the index becomes positive.
    - [FadingIn] goes to [Shown] when the entrance animation completes.
    - [FadingIn] and [Shown] go to [Hidden] when the index drops to at
      most 0.
    Section 5 adds that a completion arriving after the state has moved
    on must be ignored.  That machine ([Overlay.spec_step]), the phase
    of a state ([Overlay.phase]) and the trigger each event is
    ([Overlay.event_label]) are defined in [Overlay.v].

    The theorems show two things:
    - the component refines the machine in lockstep (each event moves
      the phase by the machine's step for its own trigger) on every run
      where the overlay is closed only when nothing is in flight, that
      is, no animation running, no cancelled callback pending, no
      message on its way to the JS thread;
    - without that hypothesis it does not.  The fade's callback posts
      [setFadedIn(true)] whatever its [finished] argument, including
      when the close cancels it.  The message then arrives after the
      close has reset [fadedIn], and the next open skips [FadingIn].  A
      completion of a fade that finished, still queued for the JS thread
      when the close runs, lands after it in the same way.  An index
      change between two positive values in the middle of the fade also
      posts [setFadedIn(true)] before the fade has finished, and so
      does a close followed by a reopen within the fade (section 9).
    The file ends with a round trip (open, completion, close restores
    the state) and the termination of everything in flight. *)

From S2P Require Import Prelude Easing Timing Gesture Theme Overlay.

Module OverlaySpec.

Import Easing Timing Gesture Theme Overlay.
Open Scope overlay_scope.
Open Scope Q_scope.

(** Runs and states used by the witnesses.  [quiet_run] opens, lets the
    fade complete and be delivered, closes, and reopens.  [stale_state]
    is what a close 16 time units into the fade leaves after the next
    frame and the delivery.  [mid_fade] is one frame into the fade, and
    [faded_state] the frame that finishes it, before the JS thread has
    run the completion. *)
Definition quiet_run : list Event :=
  [Rerender 1; Frame 1100; Frame 1200; DeliverJs; Rerender 0; Rerender 2].
Definition stale_state : Sys := run witness_open [Rerender 0; Frame 1016; DeliverJs].
Definition mid_fade : Sys := run witness_open [Frame 1100].
Definition faded_state : Sys := run witness_open [Frame 1200].

(** ** A phase the machine never takes *)

(** C4: Reopening after a stale completion skips the fade.  From a hidden
    overlay whose [fadedIn] is set, an index that becomes positive shows
    the overlay in phase [Shown] at once, although the fade restarts
    from opacity 0.  The displayed opacity is the drag value, not the
    fade.  The machine has no step from [Hidden] to [Shown]. *)
Theorem reopen_after_stale_skips_fade s j :
  reachable s -> visible s = false -> fadedIn s = true -> (0 < j)%Z ->
  let s' := step s (Rerender j) in
  phase s' = Shown /\ showOverlayStyle s' = drag s' /\ sv_value (opacity s') == 0 /\
  (forall l, ~ spec_step (phase s) l (phase s')).
Proof.
  intros H Hv Hf Hj. pose proof (reachable_inv s H) as Hinv.
  assert (Hidx : (index s <= 0)%Z) by (apply Z.ltb_ge; rewrite <- (inv_visible _ Hinv); exact Hv).
  destruct (inv_hidden _ Hinv Hv) as (Hval & Hanim & _).
  cbn [step]. rewrite commit_open by (apply Hinv || lia || exact Hj).
  unfold phase, showOverlayStyle. cbn [visible fadedIn drag opacity]. rewrite Hv, Hf.
  destruct (opacity s) as [v0 a0 cbs]; cbn in Hval, Hanim; subst v0 a0.
  destruct (fade_start (now s) cbs) as (v & E & Hv0). rewrite E.
  split; [reflexivity | split; [reflexivity | split; [exact Hv0 |]]].
  intros l Hs. inversion Hs.
Qed.

(** ** The refinement *)

(** C2: Refinement.  Take any run from a mount in which the overlay is
    closed only while nothing is in flight.  The first render is the
    machine's open step when the initial index is positive and keeps
    [Hidden] otherwise.  Each later event moves the phase by exactly the
    machine's step for its trigger ([event_label]): a rerender that makes
    the index positive goes from [Hidden] to [FadingIn], the delivery of
    the fade's completion goes from [FadingIn] to [Shown], a rerender
    that drops the index to at most 0 goes to [Hidden], and every other
    event (frames, drags, touches, rerenders that keep the sign) leaves
    the phase unchanged. *)
Theorem refines_spec_machine th drag0 t0 i0 evs :
  no_stale_run (mount th drag0 t0 i0) evs ->
  spec_step Hidden (mount_label i0) (phase (mount th drag0 t0 i0)) /\
  follows (mount th drag0 t0 i0) evs.
Proof.
  intro Hns. destruct (strict_mount th drag0 t0 i0) as [HS Hstep].
  split; [exact Hstep | apply strict_follows; assumption].
Qed.

(** ** Where the component leaves the machine *)

(** C3: Closing while the fade runs leaves a stale completion.  The
    close cancels the fade, the cancelled fade's callback posts
    [setFadedIn(true)] at the next frame, and the JS thread runs that
    call after the effect has reset [fadedIn].  The overlay ends up
    hidden with [fadedIn] set, which breaks both the invariant of the
    spec's machine and the rule that a stale completion is ignored. *)
Theorem close_during_fade_leaves_fadedIn s a i t :
  reachable s -> visible s = true -> sv_animation (opacity s) = Some a ->
  (i <= 0)%Z -> now s <= t ->
  let s1 := run s [Rerender i; Frame t] in
  let s2 := run s1 (repeat DeliverJs (List.length (inbox s1))) in
  visible s2 = false /\ fadedIn s2 = true /\ phase s2 = Hidden.
Proof.
  intros H Hv Ea Hi Ht. pose proof (reachable_inv s H) as Hinv.
  destruct (inv_opacity _ Hinv) as [_ [Hdef Hcb]].
  assert (Hidx : (0 < index s)%Z) by (apply Z.ltb_lt; rewrite <- (inv_visible _ Hinv); exact Hv).
  cbn [run fold_left step]. rewrite commit_close by (apply Hinv || lia || exact Hi).
  cbn [now opacity]. rewrite (proj2 (Qle_bool_iff _ _) Ht).
  rewrite frame_idle by reflexivity. cbn [sv_cancelled set_value]. rewrite Ea.
  cbn [cancelled_of]. rewrite (Hdef a Ea). cbn [def_callback fade_def withTiming].
  rewrite flat_map_app. cbn [flat_map]. rewrite app_nil_r.
  set (s1 := set_inbox _ _).
  assert (Hc1 : completions (inbox s1)).
  { unfold s1. unfold_sys. apply completions_app; [apply Hinv|].
    apply completions_app; [apply completions_cancelled, Hcb | repeat constructor]. }
  assert (Hnil : inbox s1 <> []) by (unfold s1; unfold_sys; list_not_nil).
  rewrite (deliver_all_nonempty s1 Hc1 Hnil). repeat split.
Qed.

(** C6: A completion already on its way to the JS thread when the
    overlay closes also lands after the close.  This needs no cancelled
    animation: the message may come from a fade that finished, so a
    callback that honoured [finished] would not prevent it.  The overlay
    ends up hidden with [fadedIn] set, although section 5 of the spec
    asks for a stale completion to be ignored. *)
Theorem queued_completion_outlives_close s i :
  reachable s -> visible s = true -> inbox s <> [] -> (i <= 0)%Z ->
  let s1 := step s (Rerender i) in
  let s2 := run s1 (repeat DeliverJs (List.length (inbox s1))) in
  visible s2 = false /\ fadedIn s2 = true /\ phase s2 = Hidden.
Proof.
  intros H Hv Hib Hi. pose proof (reachable_inv s H) as Hinv.
  assert (Hidx : (0 < index s)%Z) by (apply Z.ltb_lt; rewrite <- (inv_visible _ Hinv); exact Hv).
  cbn [step]. rewrite commit_close by (apply Hinv || lia || exact Hi).
  rewrite deliver_all by apply Hinv. cbn [inbox].
  destruct (inbox s); [contradiction | repeat split].
Qed.

(** C20: An index change between two positive values in the middle of
    the fade completes it early.  The effect assigns the same
    [withTiming(1, ...)] again.  Reanimated keeps the running timeline,
    but it cancels the running animation, and that animation's callback
    posts [setFadedIn(true)] at the next frame.  Once the JS thread has
    run it, the fade is still running while the overlay already shows
    the drag value. *)
Theorem retarget_mid_fade_completes_early s a j t :
  reachable s -> visible s = true -> sv_animation (opacity s) = Some a ->
  ~ sv_value (opacity s) == 1 -> ~ an_startTime a == 0 ->
  (0 < j)%Z -> j <> index s -> now s <= t -> t < an_startTime a + 200 ->
  let s1 := run s [Rerender j; Frame t] in
  let s2 := run s1 (repeat DeliverJs (List.length (inbox s1))) in
  fadedIn s2 = true /\ visible s2 = true /\ showOverlayStyle s2 = drag s2 /\
  exists a', sv_animation (opacity s2) = Some a' /\ an_startTime a' = an_startTime a.
Proof.
  intros H Hv Ea Hval Hst Hj Hne Ht Hend. pose proof (reachable_inv s H) as Hinv.
  destruct (inv_opacity _ Hinv) as [[_ Hok] [Hdef Hcb]].
  destruct (Hok a Ea) as (_ & _ & _ & _ & Hts). pose proof (Hdef a Ea) as Ha.
  assert (Hidx : (0 < index s)%Z) by (apply Z.ltb_lt; rewrite <- (inv_visible _ Hinv); exact Hv).
  cbn [run fold_left step]. rewrite commit_open by (apply Hinv || lia || exact Hj).
  destruct (set_animation_continues fade_def (now s) (opacity s) a Ea) as [v E];
    [unfold an_toValue; rewrite Ha; reflexivity | exact Hst | exact Hval |
     change (duration (def_config fade_def)) with 200; lra |].
  rewrite E. cbn [fst snd now opacity inbox]. rewrite (proj2 (Qle_bool_iff _ _) Ht).
  rewrite (frame_running (mkSV v (Some (mkAnim fade_def (an_startValue a) (an_startTime a) (now s)))
              (sv_cancelled (opacity s) ++ cancelled_of (Some a)))
              (mkAnim fade_def (an_startValue a) (an_startTime a) (now s)) t eq_refl Ht)
    by (change (an_startTime _ + duration _) with (an_startTime a + 200); lra).
  cbn [cancelled_of sv_cancelled an_def an_startValue an_startTime]. rewrite Ha.
  cbn [def_callback fade_def withTiming]. rewrite flat_map_app. cbn [flat_map].
  rewrite app_nil_r. change (fade_callback false) with [SetFadedIn true].
  set (s1 := set_inbox _ _).
  assert (Hc1 : completions (inbox s1)).
  { unfold s1. unfold_sys. rewrite app_nil_r. apply completions_app; [apply Hinv|].
    apply completions_app; [apply completions_cancelled, Hcb | repeat constructor]. }
  assert (Hnil : inbox s1 <> []) by (unfold s1; unfold_sys; list_not_nil).
  rewrite (deliver_all_nonempty s1 Hc1 Hnil). repeat split. eexists. split; reflexivity.
Qed.

(** C7: The open question of section 9 of the spec, answered: a fast
    double toggle produces a visible glitch.  Close the overlay while
    its fade runs and reopen it before the next frame.  The reopen
    starts a new fade from 0, but the first frame runs the cancelled
    fade's callback, which posts [setFadedIn(true)].  Before the JS
    thread runs it the overlay shows the new fade's value; right after,
    it shows the drag value, while the new fade is still running. *)
Theorem double_toggle_glitch s a i j t :
  reachable s -> visible s = true -> sv_animation (opacity s) = Some a ->
  (i <= 0)%Z -> (0 < j)%Z -> now s <= t -> t < now s + 200 ->
  let s1 := run s [Rerender i; Rerender j; Frame t] in
  let s2 := run s1 (repeat DeliverJs (List.length (inbox s1))) in
  fadedIn s1 = false /\ showOverlayStyle s1 == fade_easing ((t - now s) / 200) /\
  fadedIn s2 = true /\ visible s2 = true /\ showOverlayStyle s2 = drag s2 /\
  sv_animation (opacity s2) = Some (mkAnim fade_def 0 (now s) t).
Proof.
  intros H Hv Ea Hi Hj Ht Hend. pose proof (reachable_inv s H) as Hinv.
  pose proof (cancelled_after_set_value s Hinv) as Hcb. rewrite Ea in Hcb.
  assert (Hidx : (0 < index s)%Z) by (apply Z.ltb_lt; rewrite <- (inv_visible _ Hinv); exact Hv).
  cbn [run fold_left step]. rewrite (commit_close s i) by (apply Hinv || lia || exact Hi).
  rewrite commit_open by (cbn; (reflexivity || lia)). cbn [now opacity inbox].
  unfold set_value. rewrite Ea. cbn [sv_cancelled].
  destruct (fade_start (now s) (sv_cancelled (opacity s) ++ cancelled_of (Some a)))
    as (v & E & _).
  rewrite E. cbn [fst snd]. rewrite (proj2 (Qle_bool_iff _ _) Ht).
  rewrite (frame_running (mkSV v (Some (mkAnim fade_def 0 (now s) (now s))) _)
             (mkAnim fade_def 0 (now s) (now s)) t eq_refl Ht)
    by (change (an_startTime _ + duration _) with (now s + 200); exact Hend).
  rewrite app_nil_r.
  set (s1 := set_inbox _ _).
  assert (Hc1 : completions (inbox s1))
    by (unfold s1; unfold_sys; rewrite app_nil_r;
        apply completions_app; [apply Hinv | apply completions_cancelled, Hcb]).
  assert (Hne : inbox s1 <> []).
  { unfold s1. unfold_sys. destruct (inv_opacity _ Hinv) as [_ [Hdef _]].
    cbn [cancelled_of sv_cancelled]. rewrite (Hdef a Ea), app_nil_r, flat_map_app.
    cbn [fade_def withTiming def_callback flat_map]. list_not_nil. }
  rewrite (deliver_all_nonempty s1 Hc1 Hne). unfold s1. unfold_sys.
  unfold showOverlayStyle. cbn. repeat split. unfold fade_easing. ring.
Qed.

(** ** Round trip and termination *)

(** C12: Opening and closing is a round trip.  From a hidden overlay with
    nothing in flight, an open, a frame once the fade has run its 200
    time units, the delivery of its completion and a close back to the
    old index give the state back exactly, with only the clock moved. *)
Theorem open_close_roundtrip s j t :
  reachable s -> visible s = false -> fadedIn s = false -> quiescent s ->
  (0 < j)%Z -> now s + 200 <= t ->
  run s [Rerender j; Frame t; DeliverJs; Rerender (index s)] = set_now t s.
Proof.
  intros H Hv Hf (Ha & Hc & Hib) Hj Ht. pose proof (reachable_inv s H) as Hinv.
  assert (Hidx : (index s <= 0)%Z) by (apply Z.ltb_ge; rewrite <- (inv_visible _ Hinv); exact Hv).
  destruct (inv_hidden _ Hinv Hv) as (Hval & _ & Htap). pose proof (inv_deps _ Hinv) as Hd.
  cbn [run fold_left]. change (step s (Rerender j)) with (commit j s).
  rewrite (commit_open s j) by (assumption || lia).
  cbn [step now opacity]. rewrite (proj2 (Qle_bool_iff _ _)) by lra.
  destruct s as [th i d v f [v0 a0 cbs] dr n ib r c]; cbn in *; subst.
  destruct (fade_start n []) as (v1 & E & _). rewrite E. cbn [fst snd].
  rewrite (frame_completes_fade (mkSV v1 (Some (mkAnim fade_def 0 n n)) ([] ++ []))
             (mkAnim fade_def 0 n n) t eq_refl eq_refl) by (cbn; lra).
  cbn. rewrite commit_close by (cbn; (reflexivity || lia)). reflexivity.
Qed.

(** C11: Everything in flight terminates.  In any reachable state, one
    frame 200 time units after the latest one stops the running
    animation and runs the pending cancellations, and delivering the
    messages this leaves empties the queue for good: nothing is running,
    pending or queued, and the overlay is as visible as before. *)
Theorem in_flight_drains s t :
  reachable s -> now s + 200 <= t ->
  let s1 := step s (Frame t) in
  let s2 := run s1 (repeat DeliverJs (List.length (inbox s1))) in
  quiescent s2 /\ visible s2 = visible s /\ index s2 = index s.
Proof.
  intros H Ht. pose proof (reachable_inv s H) as Hinv.
  destruct (inv_opacity _ Hinv) as [[_ Hok] [Hdef Hcb]].
  cbn [step]. rewrite (proj2 (Qle_bool_iff _ _)) by lra.
  assert (Hfr : exists v msgs, frame t (opacity s) = (mkSV v None [], msgs) /\ completions msgs).
  { destruct (sv_animation (opacity s)) as [a|] eqn:Ea.
    - destruct (Hok a eq_refl) as (_ & _ & _ & _ & Hts).
      rewrite (frame_completes_fade _ a t Ea (Hdef a eq_refl)) by lra.
      do 2 eexists. split; [reflexivity|].
      apply completions_app; [apply completions_cancelled, Hcb | apply (completions_fire true)].
    - rewrite frame_idle by exact Ea. do 2 eexists. split; [reflexivity|].
      apply completions_cancelled, Hcb. }
  destruct Hfr as (v & msgs & -> & Hm).
  set (s1 := set_inbox _ _).
  assert (Hc1 : completions (inbox s1)) by (apply completions_app; [apply Hinv | exact Hm]).
  rewrite (deliver_all s1 Hc1).
  destruct (inbox s1); cbn; repeat split.
Qed.

(** ** Witnesses *)


Lemma refines_spec_machine_witness :
  no_stale_run witness_closed quiet_run /\
  spec_step Hidden (mount_label 0) (phase witness_closed) /\ follows witness_closed quiet_run.
Proof.
  assert (H : no_stale_run witness_closed quiet_run).
  { cbn [quiet_run no_stale_run no_stale].
    repeat split; try exact I; try (intro Hc; exfalso; lia); intros _ _; repeat split. }
  split; [exact H | apply (refines_spec_machine _ _ _ _ _ H)].
Defined.

(** A close 16 time units into the fade, the next frame, and the
    delivery of what it posted. *)
Lemma close_during_fade_leaves_fadedIn_witness :
  reachable witness_open /\ visible witness_open = true /\
  sv_animation (opacity witness_open) = Some (mkAnim fade_def 0 1000 1000) /\
  (0 <= 0)%Z /\ now witness_open <= 1016 /\
  (let s1 := run witness_open [Rerender 0; Frame 1016] in
   let s2 := run s1 (repeat DeliverJs (List.length (inbox s1))) in
   visible s2 = false /\ fadedIn s2 = true /\ phase s2 = Hidden).
Proof.
  assert (Hv : visible witness_open = true) by (vm_compute; reflexivity).
  assert (Ha : sv_animation (opacity witness_open) = Some (mkAnim fade_def 0 1000 1000))
    by reflexivity.
  assert (Ht : now witness_open <= 1016) by (vm_compute; discriminate).
  split; [apply reachable_mount | split; [exact Hv | split; [exact Ha | split; [lia |
    split; [exact Ht |]]]]].
  apply (close_during_fade_leaves_fadedIn _ _ _ _ (reachable_mount _ _ _ _) Hv Ha); [lia | exact Ht].
Defined.


(** The fade of [witness_open] finishes at 1200 and posts its
    completion; the sheet closes before the JS thread runs it. *)
Lemma queued_completion_outlives_close_witness :
  reachable faded_state /\ visible faded_state = true /\ inbox faded_state <> [] /\
  (0 <= 0)%Z /\
  (let s1 := step faded_state (Rerender 0) in
   let s2 := run s1 (repeat DeliverJs (List.length (inbox s1))) in
   visible s2 = false /\ fadedIn s2 = true /\ phase s2 = Hidden).
Proof.
  assert (Hr : reachable faded_state) by (apply reachable_run, reachable_mount).
  assert (Hv : visible faded_state = true) by reflexivity.
  assert (Hib : inbox faded_state <> []) by (vm_compute; discriminate).
  split; [exact Hr | split; [exact Hv | split; [exact Hib | split; [lia |]]]].
  apply (queued_completion_outlives_close _ _ Hr Hv Hib); lia.
Defined.

(** [witness_open] is closed and reopened 50 time units into its fade,
    before any frame. *)
Lemma double_toggle_glitch_witness :
  reachable witness_open /\ visible witness_open = true /\
  sv_animation (opacity witness_open) = Some (mkAnim fade_def 0 1000 1000) /\
  (0 <= 0)%Z /\ (0 < 1)%Z /\ now witness_open <= 1050 /\ 1050 < now witness_open + 200 /\
  (let s1 := run witness_open [Rerender 0; Rerender 1; Frame 1050] in
   let s2 := run s1 (repeat DeliverJs (List.length (inbox s1))) in
   fadedIn s1 = false /\ showOverlayStyle s1 == fade_easing ((1050 - now witness_open) / 200) /\
   fadedIn s2 = true /\ visible s2 = true /\ showOverlayStyle s2 = drag s2 /\
   sv_animation (opacity s2) = Some (mkAnim fade_def 0 (now witness_open) 1050)).
Proof.
  assert (Hv : visible witness_open = true) by (vm_compute; reflexivity).
  assert (Ha : sv_animation (opacity witness_open) = Some (mkAnim fade_def 0 1000 1000))
    by reflexivity.
  assert (Ht : now witness_open <= 1050) by (vm_compute; discriminate).
  assert (He : 1050 < now witness_open + 200) by (vm_compute; reflexivity).
  split; [apply reachable_mount | split; [exact Hv | split; [exact Ha | split; [lia |
    split; [lia | split; [exact Ht | split; [exact He |]]]]]]].
  apply (double_toggle_glitch _ _ _ _ _ (reachable_mount _ _ _ _) Hv Ha); [lia | lia | exact Ht | exact He].
Defined.

(** [witness_closed] opens, fades in until 1200, and closes again. *)
Lemma open_close_roundtrip_witness :
  reachable witness_closed /\ visible witness_closed = false /\
  fadedIn witness_closed = false /\ quiescent witness_closed /\ (0 < 1)%Z /\
  now witness_closed + 200 <= 1200 /\
  run witness_closed [Rerender 1; Frame 1200; DeliverJs; Rerender (index witness_closed)] =
    set_now 1200 witness_closed.
Proof.
  assert (Hv : visible witness_closed = false) by reflexivity.
  assert (Hf : fadedIn witness_closed = false) by reflexivity.
  assert (Hq : quiescent witness_closed) by (unfold quiescent; vm_compute; repeat split).
  assert (Ht : now witness_closed + 200 <= 1200) by (vm_compute; discriminate).
  split; [apply reachable_mount | split; [exact Hv | split; [exact Hf | split; [exact Hq |
    split; [lia | split; [exact Ht |]]]]]].
  apply (open_close_roundtrip _ _ _ (reachable_mount _ _ _ _) Hv Hf Hq); [lia | exact Ht].
Defined.

(** [witness_open] in the middle of its fade: a frame at 1200 and the
    delivery of the completion leave nothing in flight. *)
Lemma in_flight_drains_witness :
  reachable witness_open /\ now witness_open + 200 <= 1200 /\
  (let s1 := step witness_open (Frame 1200) in
   let s2 := run s1 (repeat DeliverJs (List.length (inbox s1))) in
   quiescent s2 /\ visible s2 = visible witness_open /\ index s2 = index witness_open).
Proof.
  assert (Ht : now witness_open + 200 <= 1200) by (vm_compute; discriminate).
  split; [apply reachable_mount | split; [exact Ht |]].
  apply (in_flight_drains _ _ (reachable_mount _ _ _ _) Ht).
Defined.

Lemma reopen_after_stale_skips_fade_witness :
  reachable stale_state /\ visible stale_state = false /\ fadedIn stale_state = true /\
  (0 < 1)%Z /\
  (let s' := step stale_state (Rerender 1) in
   phase s' = Shown /\ showOverlayStyle s' = drag s' /\ sv_value (opacity s') == 0 /\
   (forall l, ~ spec_step (phase stale_state) l (phase s'))).
Proof.
  assert (Hr : reachable stale_state) by (apply reachable_run, reachable_mount).
  assert (Hv : visible stale_state = false) by (vm_compute; reflexivity).
  assert (Hf : fadedIn stale_state = true) by (vm_compute; reflexivity).
  split; [exact Hr | split; [exact Hv | split; [exact Hf | split; [lia |]]]].
  apply (reopen_after_stale_skips_fade _ _ Hr Hv Hf). lia.
Defined.


Lemma retarget_mid_fade_completes_early_witness :
  reachable mid_fade /\ visible mid_fade = true /\
  sv_animation (opacity mid_fade) = Some (mkAnim fade_def 0 1000 1100) /\
  ~ sv_value (opacity mid_fade) == 1 /\ ~ an_startTime (mkAnim fade_def 0 1000 1100) == 0 /\
  (0 < 2)%Z /\ 2%Z <> index mid_fade /\ now mid_fade <= 1116 /\
  1116 < an_startTime (mkAnim fade_def 0 1000 1100) + 200 /\
  (let s1 := run mid_fade [Rerender 2; Frame 1116] in
   let s2 := run s1 (repeat DeliverJs (List.length (inbox s1))) in
   fadedIn s2 = true /\ visible s2 = true /\ showOverlayStyle s2 = drag s2 /\
   exists a', sv_animation (opacity s2) = Some a' /\
              an_startTime a' = an_startTime (mkAnim fade_def 0 1000 1100)).
Proof.
  assert (Hr : reachable mid_fade) by (apply reachable_run, reachable_mount).
  assert (Hv : visible mid_fade = true) by (vm_compute; reflexivity).
  assert (Ha : sv_animation (opacity mid_fade) = Some (mkAnim fade_def 0 1000 1100))
    by reflexivity.
  assert (Hval : ~ sv_value (opacity mid_fade) == 1) by (intro E; vm_compute in E; discriminate).
  assert (Hst : ~ an_startTime (mkAnim fade_def 0 1000 1100) == 0)
    by (intro E; vm_compute in E; discriminate).
  assert (Hne : 2%Z <> index mid_fade) by (vm_compute; discriminate).
  assert (Ht : now mid_fade <= 1116) by (vm_compute; discriminate).
  assert (He : 1116 < an_startTime (mkAnim fade_def 0 1000 1100) + 200)
    by (vm_compute; reflexivity).
  split; [exact Hr | split; [exact Hv | split; [exact Ha | split; [exact Hval |
    split; [exact Hst | split; [lia | split; [exact Hne | split; [exact Ht |
    split; [exact He |]]]]]]]]].
  apply (retarget_mid_fade_completes_early _ _ _ _ Hr Hv Ha Hval Hst); [lia | exact Hne | exact Ht | exact He].
Defined.

End OverlaySpec.
